(** * ABCU Advising Assistance Program (ProjectTwo.cpp)

    A shallow embedding of the course-catalogue program: the identifier
    normaliser, the quote-aware CSV splitter, the catalogue loader and the
    two queries, followed by the properties of the design document that
    are checked against them.

    Conventions of the embedding.
    - [std::string] is [string]; a [char] is an [ascii] and is read as an
      [unsigned char] wherever the source casts it.
    - [<cctype>] functions are those of the "C" locale (the program never
      calls [setlocale]).
    - [unordered_map<string, Course>] is [gmap string Course].
    - A file is the text it holds; [ifstream] opening is a partial function
      from file names to texts.
    - Output is returned as the text written to [cout] and to [cerr]. *)

From Stdlib Require Import Ascii DecimalString.
From Stdlib Require String DecimalNat.
From stdpp Require Import base list strings gmap fin_maps sorting.

(** ** Characters *)

Definition dquote : ascii := "034"%char.
Definition newline : ascii := "010"%char.
Definition comma : ascii := ","%char.

(** [isspace] in the "C" locale: space, and the controls \t \n \v \f \r. *)
Definition isspace (ch : ascii) : bool :=
  let n := nat_of_ascii ch in
  (n =? 32) || ((9 <=? n) && (n <=? 13)).

(** [toupper] in the "C" locale: only a..z change. *)
Definition toupper (ch : ascii) : ascii :=
  let n := nat_of_ascii ch in
  if (97 <=? n) && (n <=? 122) then ascii_of_nat (n - 32) else ch.

(** ** Strings *)

(** [s.push_back(ch)] *)
Definition push_back (s : string) (ch : ascii) : string :=
  s +:+ String ch EmptyString.

(** [s.empty()] *)
Definition empty (s : string) : bool :=
  match s with EmptyString => true | String _ _ => false end.

(** [s.substr(pos, n)] and [s.substr(pos)], for [pos <= s.size()]. *)
Definition substr (s : string) (pos n : nat) : string :=
  String.substring pos n s.
Definition substr_from (s : string) (pos : nat) : string :=
  String.substring pos (String.length s - pos) s.

(** The loop of [ltrim]: the index of the first character that is not
    white space, counted from [i]; [s] is the text from index [i] on. *)
Fixpoint ltrim_loop (s : string) (i : nat) : nat :=
  match s with
  | String ch rest => if isspace ch then ltrim_loop rest (S i) else i
  | EmptyString => i
  end.

Definition ltrim (s : string) : string :=
  substr_from s (ltrim_loop s 0).

(** The loop of [rtrim], downwards from index [i]. *)
Fixpoint rtrim_loop (s : string) (i : nat) {struct i} : string :=
  match String.get i s with
  | Some ch =>
      if isspace ch then
        match i with
        | 0 => EmptyString
        | S i' => rtrim_loop s i'
        end
      else substr s 0 (i + 1)
  | None => substr s 0 (i + 1)
  end.

Definition rtrim (s : string) : string :=
  if empty s then s else rtrim_loop s (String.length s - 1).

Definition trim (s : string) : string := rtrim (ltrim s).

(** ** normalizeCourseId *)

Definition dropped (ch : ascii) : bool :=
  isspace ch || bool_decide (ch = "-"%char) || bool_decide (ch = "_"%char)
  || bool_decide (ch = comma).

Fixpoint normalize_loop (s : string) (out : string) : string :=
  match s with
  | EmptyString => out
  | String ch rest =>
      if dropped ch then normalize_loop rest out
      else normalize_loop rest (push_back out (toupper ch))
  end.

Definition normalizeCourseId (s : string) : string :=
  trim (normalize_loop s EmptyString).

(** ** splitCSV *)

(** The loop over the characters of the line.  [line] is the text from the
    current index on, so [line[i + 1]] is the head of its tail. *)
Fixpoint splitCSV_loop (line : string) (out : list string) (cur : string)
    (inQuotes : bool) : list string :=
  match line with
  | EmptyString => out ++ [trim cur]
  | String ch rest =>
      if bool_decide (ch = dquote) then
        match inQuotes, rest with
        | true, String ch' rest' =>
            if bool_decide (ch' = dquote)
            then splitCSV_loop rest' out (push_back cur dquote) inQuotes
            else splitCSV_loop rest out cur (negb inQuotes)
        | _, _ => splitCSV_loop rest out cur (negb inQuotes)
        end
      else if bool_decide (ch = comma) && negb inQuotes then
        splitCSV_loop rest (out ++ [trim cur]) EmptyString inQuotes
      else splitCSV_loop rest out (push_back cur ch) inQuotes
  end.

Definition splitCSV (line : string) : list string :=
  splitCSV_loop line [] EmptyString false.

(** ** Data model *)

Record Course := mkCourse {
  number : string;
  title : string;
  prereqNumbers : list string
}.

Abbreviation CourseTable := (gmap string Course).

Record ProgramState := mkState {
  loaded : bool;
  courses : CourseTable;
  sortedKeys : list string
}.

(** The state [main] starts from. *)
Definition initial_state : ProgramState :=
  {| loaded := false; courses := ∅; sortedKeys := [] |}.

(** ** Files and streams *)

(** [ifstream in(filename)]: the text of the file, or [None] when the
    stream cannot be opened. *)
Definition FileSystem := string → option string.

(** What one call writes to the two standard streams. *)
Record Output := mkOutput { to_cout : string; to_cerr : string }.

(** The lines that successive [getline(in, line)] calls return until one
    fails: the text is cut at each newline, and a last line without a
    newline is returned too, unless it is empty. *)
Fixpoint getlines (text : string) (cur : string) : list string :=
  match text with
  | EmptyString => if empty cur then [] else [cur]
  | String ch rest =>
      if bool_decide (ch = newline) then cur :: getlines rest EmptyString
      else getlines rest (push_back cur ch)
  end.

(** [operator<<] on a [size_t]: decimal digits. *)
Definition show (n : nat) : string :=
  NilEmpty.string_of_uint (Nat.to_uint n).

Definition endl : string := String newline EmptyString.
Definition quoted (s : string) : string :=
  String dquote EmptyString +:+ s +:+ String dquote EmptyString.

Definition open_error (filename : string) : string :=
  "Error: could not open " +:+ quoted filename +:+ "." +:+ endl.
Definition malformed_warning (lineNum : nat) : string :=
  "Warning: malformed line " +:+ show lineNum +:+ "." +:+ endl.
Definition loaded_message (n : nat) (filename : string) : string :=
  "Loaded " +:+ show n +:+ " courses from " +:+ quoted filename +:+ "." +:+ endl.
Definition not_loaded_message : string :=
  "Please load the data first (Option 1)." +:+ endl.

(** ** Option 1: loadCoursesFromFile *)

(** [for (size_t i = 2; i < fields.size(); ++i)], on the fields from
    index 2 on. *)
Fixpoint prereq_loop (fields : list string) (prereqs : list string)
    : list string :=
  match fields with
  | [] => prereqs
  | f :: rest =>
      let p := normalizeCourseId f in
      if negb (empty p) then prereq_loop rest (prereqs ++ [p])
      else prereq_loop rest prereqs
  end.

(** The [Course c] that the body of the loop builds from the fields. *)
Definition make_course (fields : list string) : Course :=
  {| number := normalizeCourseId (nth 0 fields EmptyString);
     title := nth 1 fields EmptyString;
     prereqNumbers := prereq_loop (drop 2 fields) [] |}.

(** [while (getline(in, line))].  [lineNum] is the counter before the
    increment, [cerr] the text written to [cerr] so far. *)
Fixpoint load_loop (lines : list string) (lineNum : nat)
    (newTable : CourseTable) (cerr : string) : CourseTable * string :=
  match lines with
  | [] => (newTable, cerr)
  | line :: rest =>
      let lineNum := S lineNum in
      let line := trim line in
      if empty line then load_loop rest lineNum newTable cerr
      else
        let fields := splitCSV line in
        if length fields <? 2 then
          load_loop rest lineNum newTable (cerr +:+ malformed_warning lineNum)
        else
          let c := make_course fields in
          if negb (empty (number c)) then
            load_loop rest lineNum (<[number c := c]> newTable) cerr
          else load_loop rest lineNum newTable cerr
  end.

(** [std::sort] on strings with [operator<], which compares characters as
    unsigned bytes.  The keys of a table are pairwise distinct, so every
    correct sorting algorithm returns the same sequence; merge sort stands
    for it. *)
Definition sort (keys : list string) : list string :=
  merge_sort String.le keys.

(** [for (auto& kv : state.courses) state.sortedKeys.push_back(kv.first)],
    in the (unspecified) iteration order of the table. *)
Definition table_keys (t : CourseTable) : list string :=
  (map_to_list t).*1.

Definition loadCoursesFromFile (fs : FileSystem) (filename : string)
    (state : ProgramState) : bool * ProgramState * Output :=
  match fs filename with
  | None =>
      (false, state,
       {| to_cout := EmptyString; to_cerr := open_error filename |})
  | Some text =>
      let '(newTable, cerr) :=
        load_loop (getlines text EmptyString) 0 ∅ EmptyString in
      let state' :=
        {| loaded := true;
           courses := newTable;
           sortedKeys := sort (table_keys newTable) |} in
      (true, state',
       {| to_cout := loaded_message (size newTable) filename;
          to_cerr := cerr |})
  end.

(** ** Option 2: printCourseList *)

(** [state.courses.at(id)] throws [std::out_of_range] for an absent key:
    [None]. *)
Fixpoint list_loop (t : CourseTable) (ids : list string) (cout : string)
    : option string :=
  match ids with
  | [] => Some cout
  | id :: rest =>
      match t !! id with
      | Some c => list_loop t rest (cout +:+ id +:+ ", " +:+ title c +:+ endl)
      | None => None
      end
  end.

Definition printCourseList (state : ProgramState) : option string :=
  if negb (loaded state) then Some not_loaded_message
  else list_loop (courses state) (sortedKeys state) EmptyString.

(** ** Option 3: printSingleCourse *)

Definition course_prompt : string := "What course do you want to know about? ".
Definition no_course_message : string := "No course entered." +:+ endl.
Definition not_found_message : string := "Course not found." +:+ endl.
Definition no_prereq_message : string := "Prerequisites: None" +:+ endl.

(** [for (size_t i = 0; i < c.prereqNumbers.size(); ++i)], on the
    prerequisites from index [i] on; [i + 1 < size] holds when the rest is
    not empty. *)
Fixpoint prereq_print_loop (t : CourseTable) (prereqs : list string)
    (cout : string) : string :=
  match prereqs with
  | [] => cout
  | pid :: rest =>
      let cout :=
        match t !! pid with
        | Some p => cout +:+ number p +:+ " (" +:+ title p +:+ ")"
        | None => cout +:+ pid +:+ " (missing)"
        end in
      let cout :=
        match rest with
        | [] => cout
        | _ :: _ => cout +:+ ", "
        end in
      prereq_print_loop t rest cout
  end.

(** [input] is the line that [getline(cin, query)] reads (empty when the
    read fails).  The result is the text written to [cout]. *)
Definition printSingleCourse (state : ProgramState) (input : string)
    : string :=
  if negb (loaded state) then not_loaded_message
  else
    let cout := course_prompt in
    let query := normalizeCourseId input in
    if empty query then cout +:+ no_course_message
    else
      match courses state !! query with
      | None => cout +:+ not_found_message
      | Some c =>
          let cout := cout +:+ number c +:+ ", " +:+ title c +:+ endl in
          if bool_decide (prereqNumbers c = []) then cout +:+ no_prereq_message
          else
            let cout := cout +:+ "Prerequisites: " in
            let cout := prereq_print_loop (courses state) (prereqNumbers c) cout in
            cout +:+ endl
      end.

(** ** The menu loop of [main] *)

(** One pass of the loop after the choice is read; choice 9 and the end of
    the input leave the loop and are not steps. *)
Inductive Command :=
  | LoadData (fname : string)      (* choice 1 and the file name read *)
  | PrintList                      (* choice 2 *)
  | PrintCourse (input : string)   (* choice 3 and the line read, if any *)
  | InvalidChoice.

Definition step (fs : FileSystem) (state : ProgramState) (cmd : Command)
    : ProgramState :=
  match cmd with
  | LoadData fname =>
      if negb (empty (trim fname))
      then (loadCoursesFromFile fs (trim fname) state).1.2
      else state
  | PrintList | PrintCourse _ | InvalidChoice => state
  end.

(** A run of the program: each pass sees the files as they are then. *)
Fixpoint run (state : ProgramState) (script : list (FileSystem * Command))
    : ProgramState :=
  match script with
  | [] => state
  | (fs, cmd) :: rest => run (step fs state cmd) rest
  end.

Definition one_file (name text : string) : FileSystem :=
  λ f, if bool_decide (f = name) then Some text else None.
Definition no_file : FileSystem := λ _, None.

(** * Vocabulary of the properties *)

(** All characters of a string satisfy a test. *)
Fixpoint string_forall (P : ascii → bool) (s : string) : bool :=
  match s with
  | EmptyString => true
  | String ch rest => P ch && string_forall P rest
  end.

(** [ltrim] drops the longest prefix of white space. *)
Fixpoint drop_spaces (s : string) : string :=
  match s with
  | String ch rest => if isspace ch then drop_spaces rest else s
  | EmptyString => s
  end.

Definition no_space (s : string) : bool := string_forall (λ ch, negb (isspace ch)) s.

Definition all_space (s : string) : bool := string_forall isspace s.

(** A text that neither begins nor ends with white space. *)
Definition trimmed (s : string) : Prop :=
  match s with
  | EmptyString => True
  | String ch rest =>
      isspace ch = false ∧
      ∃ c, String.get (String.length rest) s = Some c ∧ isspace c = false
  end.

(** What the loop leaves in [out]: characters that are kept and are
    their own upper case. *)
Definition kept (ch : ascii) : bool :=
  negb (dropped ch) && bool_decide (toupper ch = ch).

Definition is_dquote (ch : ascii) : bool := bool_decide (ch = dquote).
Definition no_dquote (s : string) : bool :=
  string_forall (λ ch, negb (is_dquote ch)) s.

(** The number of commas of a line that lie outside quoted spans.  A
    span starts at a quote character and ends at the next one that is not
    doubled; a doubled quote inside a span is a literal quote. *)
Fixpoint unquoted_commas (line : string) (inside : bool) : nat :=
  match line with
  | EmptyString => 0
  | String ch rest =>
      if is_dquote ch then
        if inside then
          match rest with
          | String ch' rest' =>
              if is_dquote ch' then unquoted_commas rest' true
              else unquoted_commas rest false
          | EmptyString => 0
          end
        else unquoted_commas rest true
      else if bool_decide (ch = comma) then
        if inside then unquoted_commas rest inside
        else S (unquoted_commas rest inside)
      else unquoted_commas rest inside
  end.

(** The text of a quoted span for a content: each quote character is
    doubled. *)
Fixpoint escape_quotes (s : string) : string :=
  match s with
  | EmptyString => EmptyString
  | String ch rest =>
      if is_dquote ch then String dquote (String dquote (escape_quotes rest))
      else String ch (escape_quotes rest)
  end.

(** A field the way a line writes it: plain, or between quote characters
    with the quote characters of its text doubled.  A plain text has no
    comma and no quote character; a quoted one is any text. *)
Inductive Field :=
  | Plain (text : string)
  | Quoted (text : string).

Definition field_text (f : Field) : string :=
  match f with Plain s | Quoted s => s end.

Definition no_comma (s : string) : bool :=
  string_forall (λ ch, negb (bool_decide (ch = comma))) s.

Definition field_ok (f : Field) : bool :=
  match f with
  | Plain s => no_dquote s && no_comma s
  | Quoted s => true
  end.

Definition write_field (f : Field) : string :=
  match f with Plain s => s | Quoted s => quoted (escape_quotes s) end.

Definition write_line (fields : list Field) : string :=
  String.concat "," (write_field <$> fields).

(** A field written in pieces: bare text, and spans between quote
    characters with the quote characters of their text doubled.  A bare
    text has no comma and no quote character; a span is followed by the end
    of the field or by a bare text that is not empty, since a span that
    follows a span at once would double the quote character between them. *)
Inductive Segment :=
  | Bare (text : string)
  | Span (text : string).

Definition segment_text (g : Segment) : string :=
  match g with Bare s | Span s => s end.

Definition write_segment (g : Segment) : string :=
  match g with Bare s => s | Span s => quoted (escape_quotes s) end.

Definition segments_text (gs : list Segment) : string :=
  foldr (λ g rest, segment_text g +:+ rest) EmptyString gs.

Definition write_segments (gs : list Segment) : string :=
  foldr (λ g rest, write_segment g +:+ rest) EmptyString gs.

Fixpoint segments_ok (gs : list Segment) : bool :=
  match gs with
  | [] => true
  | Bare s :: rest => no_dquote s && no_comma s && segments_ok rest
  | Span _ :: rest =>
      match rest with
      | [] => true
      | Bare (String _ _) :: _ => segments_ok rest
      | _ => false
      end
  end.

(** The course that a line puts into the table, if any: the line is not
    blank, has two fields or more, and its identifier is not empty. *)
Definition line_course (line : string) : option Course :=
  let line := trim line in
  if empty line then None
  else
    let fields := splitCSV line in
    if length fields <? 2 then None
    else
      let c := make_course fields in
      if negb (empty (number c)) then Some c else None.

(** What a line does to the table. *)
Definition line_table (t : CourseTable) (line : string) : CourseTable :=
  match line_course line with
  | Some c => <[number c := c]> t
  | None => t
  end.

(** What the line numbered [lineNum] writes to [cerr]. *)
Definition line_cerr (lineNum : nat) (line : string) : string :=
  if negb (empty (trim line)) && (length (splitCSV (trim line)) <? 2)
  then malformed_warning lineNum
  else EmptyString.

(** What the lines after line [lineNum] write to [cerr]. *)
Definition warnings (lines : list string) (lineNum : nat) : string :=
  (load_loop lines lineNum ∅ EmptyString).2.

(** Every course sits under its own number. *)
Definition keyed_by_number (t : CourseTable) : Prop :=
  ∀ k c, t !! k = Some c → number c = k.

(** [operator<] on strings. *)
Definition string_lt (a b : string) : Prop := String.ltb a b = true.

(** The result of describing a course, as the design document words it:
    the number and title of the course and either the marker that it has
    no prerequisites or one (number, title) entry per prerequisite. *)
Inductive Prerequisites :=
  | NoPrerequisites
  | Resolved (entries : list (string * string)).

Record Description := mkDescription {
  described : string * string;
  prerequisites : Prerequisites
}.

(** The entry of one prerequisite: its number and title when the table
    has it, the identifier as stored and the word "missing" when not. *)
Definition resolve (t : CourseTable) (pid : string) : string * string :=
  match t !! pid with
  | Some p => (number p, title p)
  | None => (pid, "missing")
  end.

(** The text in which [printSingleCourse] shows a description. *)
Definition render_entry (e : string * string) : string :=
  e.1 +:+ " (" +:+ e.2 +:+ ")".

Definition render_prerequisites (p : Prerequisites) : string :=
  match p with
  | NoPrerequisites => no_prereq_message
  | Resolved entries =>
      "Prerequisites: " +:+ String.concat ", " (render_entry <$> entries) +:+ endl
  end.

Definition render (d : Description) : string :=
  (described d).1 +:+ ", " +:+ (described d).2 +:+ endl
  +:+ render_prerequisites (prerequisites d).

(** [rtrim], by recursion on the text: what is left when the white
    space at the end is dropped. *)
Fixpoint drop_trailing (s : string) : string :=
  match s with
  | EmptyString => EmptyString
  | String ch rest =>
      let rest' := drop_trailing rest in
      if empty rest' && isspace ch then EmptyString else String ch rest'
  end.

(** A function applied to every character of a text. *)
Fixpoint string_map (f : ascii → ascii) (s : string) : string :=
  match s with
  | EmptyString => EmptyString
  | String ch rest => String (f ch) (string_map f rest)
  end.

(** A lower-case letter of the "C" locale. *)
Definition islower (ch : ascii) : bool :=
  (97 <=? nat_of_ascii ch) && (nat_of_ascii ch <=? 122).

(** The numbers of the lines that are not blank and have fewer than two
    fields, the first of [lines] being line [lineNum + 1]. *)
Fixpoint malformed_numbers (lines : list string) (lineNum : nat) : list nat :=
  match lines with
  | [] => []
  | line :: rest =>
      if negb (empty (trim line)) && (length (splitCSV (trim line)) <? 2)
      then S lineNum :: malformed_numbers rest (S lineNum)
      else malformed_numbers rest (S lineNum)
  end.

(** The line that [printCourseList] writes for a course. *)
Definition course_line (c : Course) : string :=
  number c +:+ ", " +:+ title c +:+ endl.

(** * main *)

Definition printDivider : string :=
  "----------------------------------------" +:+ endl.

Definition showMenu : string :=
  printDivider
  +:+ "1. Load Data Structure" +:+ endl
  +:+ "2. Print Course List" +:+ endl
  +:+ "3. Print Course" +:+ endl
  +:+ "9. Exit" +:+ endl
  +:+ printDivider
  +:+ "Enter choice: ".

(** The value of a decimal digit. *)
Definition digit_value (ch : ascii) : option Z :=
  let n := nat_of_ascii ch in
  if (48 <=? n) && (n <=? 57) then Some (Z.of_nat (n - 48)) else None.

(** The digits that [strtol] reads in base 10, up to the first character
    that is not one. *)
Fixpoint strtol_digits (s : string) (acc : Z) : Z :=
  match s with
  | String ch rest =>
      match digit_value ch with
      | Some d => strtol_digits rest (10 * acc + d)
      | None => acc
      end
  | EmptyString => acc
  end.

(** [std::stoi(s)]: [strtol] skips white space, reads a sign and digits
    and ignores what follows; [None] stands for the exception thrown when
    there is no digit ([invalid_argument]) or when the value is not an
    [int] of 32 bits ([out_of_range]). *)
Definition stoi (s : string) : option Z :=
  let s := drop_spaces s in
  let negative :=
    match s with String ch _ => bool_decide (ch = "-"%char) | EmptyString => false end in
  let digits :=
    match s with
    | String ch rest =>
        if bool_decide (ch = "-"%char) || bool_decide (ch = "+"%char) then rest else s
    | EmptyString => s
    end in
  match digits with
  | String ch _ =>
      match digit_value ch with
      | Some _ =>
          let v := strtol_digits digits 0 in
          let v := if negative then (- v)%Z else v in
          if ((-2147483648 <=? v) && (v <=? 2147483647))%Z then Some v else None
      | None => None
      end
  | EmptyString => None
  end.

(** [int choice = -1; try { choice = stoi(trim(line)); } catch (...) {}] *)
Definition read_choice (line : string) : Z :=
  match stoi (trim line) with
  | Some v => v
  | None => (-1)%Z
  end.

(** How the program ends: [main] returns, or an exception that nothing
    catches ends it. *)
Inductive Exit :=
  | Returned (code : Z)
  | Terminated.

Definition write_cout (out : Output) (text : string) : Output :=
  {| to_cout := to_cout out +:+ text; to_cerr := to_cerr out |}.

Definition write_both (out more : Output) : Output :=
  {| to_cout := to_cout out +:+ to_cout more;
     to_cerr := to_cerr out +:+ to_cerr more |}.

(** [while (true)].  [cin] holds the lines that [getline(cin, _)] has
    still to return, [files pass] the files as they are during the pass
    numbered [pass], [out] what has been written so far.  A [getline] that
    finds no line leaves its string empty. *)
Fixpoint main_loop (files : nat → FileSystem) (pass : nat) (cin : list string)
    (state : ProgramState) (out : Output) : Output * Exit :=
  let out := write_cout out showMenu in
  match cin with
  | [] => (out, Returned 0)
  | line :: cin =>
      let choice := read_choice line in
      if (choice =? 1)%Z then
        let out := write_cout out "Enter the file name: " in
        match cin with
        | [] =>
            main_loop files (S pass) cin state
              (write_cout out ("No file name entered." +:+ endl))
        | fname :: cin' =>
            if negb (empty (trim fname)) then
              let '(_, state', written) :=
                loadCoursesFromFile (files pass) (trim fname) state in
              main_loop files (S pass) cin' state' (write_both out written)
            else
              main_loop files (S pass) cin' state
                (write_cout out ("No file name entered." +:+ endl))
        end
      else if (choice =? 2)%Z then
        match printCourseList state with
        | Some text => main_loop files (S pass) cin state (write_cout out text)
        | None => (out, Terminated)
        end
      else if (choice =? 3)%Z then
        if loaded state then
          match cin with
          | [] =>
              main_loop files (S pass) cin state
                (write_cout out (printSingleCourse state EmptyString))
          | query :: cin' =>
              main_loop files (S pass) cin' state
                (write_cout out (printSingleCourse state query))
          end
        else
          main_loop files (S pass) cin state
            (write_cout out (printSingleCourse state EmptyString))
      else if (choice =? 9)%Z then
        (write_cout out
           ("Thank you for using the Advising Assistance Program." +:+ endl),
         Returned 0)
      else
        main_loop files (S pass) cin state
          (write_cout out ("That is not a valid option. Try again." +:+ endl))
  end.

Definition main (files : nat → FileSystem) (cin : list string) : Output * Exit :=
  main_loop files 0 cin initial_state
    {| to_cout := "Welcome to the course planner." +:+ endl;
       to_cerr := EmptyString |}.

(** The keys in the sorted list are keys of the table. *)
Definition keys_present (state : ProgramState) : Prop :=
  Forall (λ k, is_Some (courses state !! k)) (sortedKeys state).

(** * Properties *)

(** ** Strings *)

Section strings.
Implicit Types (s t : string) (ch : ascii) (i : nat).

Lemma append_nil_r s : s +:+ EmptyString = s.
Proof.
  induction s as [|ch s IH]; [done|].
  change (String ch (s +:+ EmptyString) = String ch s). by rewrite IH.
Qed.

Lemma append_assoc s t u : (s +:+ t) +:+ u = s +:+ t +:+ u.
Proof.
  induction s as [|ch s IH]; [done|].
  change (String ch ((s +:+ t) +:+ u) = String ch (s +:+ t +:+ u)).
  by rewrite IH.
Qed.

Lemma append_nil_l s : EmptyString +:+ s = s.
Proof. done. Qed.

Lemma append_cons ch s t : String ch s +:+ t = String ch (s +:+ t).
Proof. done. Qed.

Lemma push_back_append s t ch :
  push_back s ch +:+ t = s +:+ String ch t.
Proof. unfold push_back. by rewrite append_assoc. Qed.

Lemma length_append s t :
  String.length (s +:+ t) = String.length s + String.length t.
Proof. induction s as [|ch s IH]; [done|]. simpl. by rewrite IH. Qed.

Lemma substring_all s : String.substring 0 (String.length s) s = s.
Proof. induction s as [|ch s IH]; [done|]. simpl. by rewrite IH. Qed.

Lemma string_forall_append P s t :
  string_forall P (s +:+ t) = string_forall P s && string_forall P t.
Proof.
  induction s as [|ch s IH]; [done|].
  rewrite append_cons. simpl. by rewrite IH, andb_assoc.
Qed.

Lemma string_forall_get P s i ch :
  string_forall P s = true → String.get i s = Some ch → P ch = true.
Proof.
  revert i. induction s as [|c s IH]; intros i Hall Hget; [done|].
  simpl in Hall. apply andb_prop in Hall as [Hc Hs].
  destruct i as [|i]; simpl in Hget.
  - by simplify_eq.
  - by eapply IH.
Qed.

Lemma get_last ch s :
  ∃ c, String.get (String.length (String ch s) - 1) (String ch s) = Some c.
Proof.
  revert ch. induction s as [|c' s IH]; intros ch; [by exists ch|].
  destruct (IH c') as [c Hc]. exists c.
  simpl in *. by rewrite Nat.sub_0_r in Hc.
Qed.

End strings.

(** ** trim *)

Section trim.
Implicit Types (s t : string) (ch : ascii) (i : nat).

Lemma ltrim_loop_shift s i : ltrim_loop s i = i + ltrim_loop s 0.
Proof.
  revert i. induction s as [|ch s IH]; intros i; simpl; [lia|].
  destruct (isspace ch); [|lia].
  rewrite (IH (S i)), (IH 1). lia.
Qed.

Lemma ltrim_drop_spaces s : ltrim s = drop_spaces s.
Proof.
  unfold ltrim, substr_from.
  induction s as [|ch s IH]; [done|]. simpl.
  destruct (isspace ch) eqn:Hch.
  - rewrite (ltrim_loop_shift s 1). simpl. exact IH.
  - simpl. by rewrite substring_all.
Qed.

Lemma rtrim_loop_unfold s i :
  rtrim_loop s i =
    match String.get i s with
    | Some ch =>
        if isspace ch then
          match i with 0 => EmptyString | S i' => rtrim_loop s i' end
        else substr s 0 (i + 1)
    | None => substr s 0 (i + 1)
    end.
Proof. by destruct i. Qed.

Lemma ltrim_no_space s : no_space s = true → ltrim s = s.
Proof.
  rewrite ltrim_drop_spaces. destruct s as [|ch s]; [done|].
  unfold no_space. simpl. intros [Hch _]%andb_prop.
  apply negb_true_iff in Hch. by rewrite Hch.
Qed.

Lemma rtrim_no_space s : no_space s = true → rtrim s = s.
Proof.
  intros Hs. unfold rtrim. destruct s as [|ch s]; [done|].
  change (empty (String ch s)) with false. cbv iota.
  rewrite rtrim_loop_unfold.
  destruct (get_last ch s) as [c Hc]. rewrite Hc.
  pose proof (string_forall_get _ _ _ _ Hs Hc) as Hsp.
  apply negb_true_iff in Hsp. rewrite Hsp.
  unfold substr.
  replace (String.length (String ch s) - 1 + 1)
    with (String.length (String ch s)) by (simpl; lia).
  apply substring_all.
Qed.

Lemma trim_no_space s : no_space s = true → trim s = s.
Proof.
  intros Hs. unfold trim. rewrite (ltrim_no_space s Hs). by apply rtrim_no_space.
Qed.

Lemma drop_spaces_all_space s t :
  all_space s = true → drop_spaces (s +:+ t) = drop_spaces t.
Proof.
  induction s as [|ch s IH]; [done|]. unfold all_space. simpl.
  intros [Hch Hs]%andb_prop. rewrite Hch. by apply IH.
Qed.

Lemma substring_0_append s t :
  String.substring 0 (String.length s) (s +:+ t) = s.
Proof.
  induction s as [|ch s IH]; simpl.
  - by destruct t.
  - rewrite ?append_cons. by rewrite IH.
Qed.

Lemma get_lt s i : i < String.length s → ∃ c, String.get i s = Some c.
Proof.
  revert i. induction s as [|ch s IH]; intros i Hi; simpl in Hi; [lia|].
  destruct i as [|i]; [by exists ch|]. simpl. apply IH. lia.
Qed.

Lemma rtrim_loop_all_space s i :
  all_space s = true → i < String.length s → rtrim_loop s i = EmptyString.
Proof.
  intros Hs. induction i as [|i IH]; intros Hi; rewrite rtrim_loop_unfold;
    destruct (get_lt s _ Hi) as [c Hc]; rewrite Hc;
    rewrite (string_forall_get _ _ _ _ Hs Hc); [done|].
  apply IH. lia.
Qed.

Lemma rtrim_all_space s : all_space s = true → rtrim s = EmptyString.
Proof.
  intros Hs. unfold rtrim. destruct s as [|ch s]; [done|].
  change (empty (String ch s)) with false. cbv iota.
  apply rtrim_loop_all_space; [done|simpl; lia].
Qed.

Lemma rtrim_loop_trailing s t n :
  trimmed s → s ≠ EmptyString → all_space t = true → n ≤ String.length t →
  rtrim_loop (s +:+ t) (String.length s - 1 + n) = s.
Proof.
  intros Hs Hne Ht. induction n as [|n IH]; intros Hn; rewrite rtrim_loop_unfold.
  - destruct s as [|ch s]; [done|]. destruct Hs as (_ & c & Hc & Hsp).
    simpl String.length.
    replace (S (String.length s) - 1 + 0) with (String.length s) by lia.
    rewrite <- (String.append_correct1 (String ch s) t (String.length s))
      by (simpl; lia).
    rewrite Hc, Hsp.
    unfold substr. replace (String.length s + 1) with (String.length (String ch s))
      by (simpl; lia).
    apply substring_0_append.
  - destruct (String.get n t) as [c|] eqn:Hc.
    + pose proof (String.append_correct2 s t n) as Hget.
      destruct s as [|ch s]; [done|]. simpl String.length in *.
      replace (S (String.length s) - 1 + S n) with (n + S (String.length s)) by lia.
      rewrite <- Hget, Hc, (string_forall_get _ _ _ _ Ht Hc).
      replace (n + S (String.length s)) with (S (S (String.length s) - 1 + n)) by lia.
      apply IH. lia.
    + destruct (get_lt t n ltac:(lia)) as [c Hc']. congruence.
Qed.

Lemma rtrim_trailing s t :
  trimmed s → all_space t = true → rtrim (s +:+ t) = s.
Proof.
  intros Hs Ht. destruct s as [|ch s].
  { by apply rtrim_all_space. }
  unfold rtrim. rewrite append_cons. change (empty (String ch (s +:+ t))) with false.
  cbv iota. rewrite <- append_cons.
  replace (String.length (String ch s +:+ t) - 1)
    with (String.length (String ch s) - 1 + String.length t)
    by (rewrite length_append; simpl; lia).
  by apply rtrim_loop_trailing.
Qed.

(** [trim] removes the white space around a text and nothing else. *)
Lemma trim_spec a s b :
  all_space a = true → all_space b = true → trimmed s →
  trim (a +:+ s +:+ b) = s.
Proof.
  intros Ha Hb Hs. unfold trim. rewrite ltrim_drop_spaces, drop_spaces_all_space by done.
  destruct s as [|ch s].
  - change (EmptyString +:+ b) with b.
    replace (drop_spaces b) with EmptyString; [done|].
    clear -Hb. induction b as [|c b IH]; [done|]. unfold all_space in *. simpl in *.
    apply andb_prop in Hb as [-> Hb]. by apply IH.
  - rewrite ?append_cons. simpl. destruct Hs as [Hch Hlast]. rewrite Hch.
    rewrite <- append_cons. apply rtrim_trailing; [by split|done].
Qed.

End trim.

(** ** normalizeCourseId *)

Section normalize.
Implicit Types (s out : string) (ch : ascii).

Lemma toupper_kept ch : dropped ch = false → kept (toupper ch) = true.
Proof. destruct ch as [[] [] [] [] [] [] [] []]; by vm_compute. Qed.

Lemma kept_no_space ch : kept ch = true → negb (isspace ch) = true.
Proof. destruct ch as [[] [] [] [] [] [] [] []]; by vm_compute. Qed.

Lemma normalize_loop_kept s out :
  string_forall kept out = true →
  string_forall kept (normalize_loop s out) = true.
Proof.
  revert out. induction s as [|ch s IH]; intros out Hout; [done|].
  simpl. destruct (dropped ch) eqn:Hch; [by apply IH|].
  apply IH. unfold push_back. rewrite string_forall_append, Hout. simpl.
  by rewrite toupper_kept.
Qed.

Lemma normalize_loop_fixed s out :
  string_forall kept s = true → normalize_loop s out = out +:+ s.
Proof.
  revert out. induction s as [|ch s IH]; intros out Hs; simpl.
  - by rewrite append_nil_r.
  - simpl in Hs. apply andb_prop in Hs as [Hch Hs].
    unfold kept in Hch. apply andb_prop in Hch as [Hd Hu].
    apply negb_true_iff in Hd. apply bool_decide_eq_true in Hu.
    rewrite Hd, Hu, (IH _ Hs). apply push_back_append.
Qed.

Lemma kept_string_no_space s : string_forall kept s = true → no_space s = true.
Proof.
  unfold no_space. induction s as [|ch s IH]; [done|]. simpl.
  intros [Hch Hs]%andb_prop. by rewrite (kept_no_space _ Hch), IH.
Qed.

Lemma normalizeCourseId_loop s :
  normalizeCourseId s = normalize_loop s EmptyString.
Proof.
  unfold normalizeCourseId. apply trim_no_space, kept_string_no_space.
  by apply normalize_loop_kept.
Qed.

Lemma normalizeCourseId_kept s :
  string_forall kept (normalizeCourseId s) = true.
Proof. rewrite normalizeCourseId_loop. by apply normalize_loop_kept. Qed.

End normalize.

(** C9. [normalizeCourseId] is idempotent, and maps the four sample
    identifiers of the design document to the keys given there. *)
Theorem normalizeCourseId_idempotent_examples :
  (∀ s, normalizeCourseId (normalizeCourseId s) = normalizeCourseId s)
  ∧ normalizeCourseId "cs-200" = "CS200"
  ∧ normalizeCourseId "  cs 200 " = "CS200"
  ∧ normalizeCourseId "CSCI,100" = "CSCI100"
  ∧ normalizeCourseId EmptyString = EmptyString.
Proof.
  split; [|by vm_compute].
  intros s. rewrite (normalizeCourseId_loop (normalizeCourseId s)).
  by rewrite normalize_loop_fixed by apply normalizeCourseId_kept.
Qed.

(** ** splitCSV *)

Section splitCSV.
Implicit Types (line s cur : string) (out : list string) (ch : ascii).

(** Inside a quoted span every character is accumulated, commas
    included, and a doubled quote character once; the span ends at a quote
    character that ends the line or is followed by a comma. *)
Lemma splitCSV_loop_escaped s line out cur :
  (line = EmptyString ∨ ∃ rest, line = String comma rest) →
  splitCSV_loop (escape_quotes s +:+ String dquote line) out cur true =
    splitCSV_loop line out (cur +:+ s) false.
Proof.
  intros Hline. revert cur. induction s as [|ch s IH]; intros cur.
  - rewrite append_nil_l, append_nil_r.
    destruct Hline as [->|[rest ->]]; by simpl.
  - simpl escape_quotes. unfold is_dquote.
    destruct (bool_decide (ch = dquote)) eqn:Hch.
    + apply bool_decide_eq_true in Hch as ->.
      rewrite !append_cons. simpl. by rewrite IH, push_back_append.
    + rewrite append_cons. simpl. rewrite Hch, andb_false_r.
      by rewrite IH, push_back_append.
Qed.

Lemma splitCSV_loop_length n : ∀ line out cur q,
  String.length line ≤ n →
  length (splitCSV_loop line out cur q) = length out + S (unquoted_commas line q).
Proof.
  induction n as [|n IH]; intros line out cur q Hn.
  { destruct line; [|simpl in Hn; lia]. simpl. by rewrite length_app. }
  destruct line as [|ch rest]; [simpl; by rewrite length_app|].
  simpl in Hn. simpl. unfold is_dquote.
  destruct (bool_decide (ch = dquote)).
  - destruct q.
    + destruct rest as [|ch' rest']; [rewrite IH by (simpl; lia); done|].
      destruct (bool_decide (ch' = dquote)); apply IH; simpl in *; lia.
    + apply IH. lia.
  - destruct (bool_decide (ch = comma)), q; simpl; rewrite IH by lia;
      rewrite ?length_app; simpl; lia.
Qed.

Lemma splitCSV_length line :
  length (splitCSV line) = S (unquoted_commas line false).
Proof. unfold splitCSV. by rewrite (splitCSV_loop_length (String.length line)). Qed.

(** Outside quoted spans, characters other than commas and quotes are
    accumulated. *)
Lemma splitCSV_loop_plain s line out cur :
  no_dquote s = true → no_comma s = true →
  splitCSV_loop (s +:+ line) out cur false = splitCSV_loop line out (cur +:+ s) false.
Proof.
  revert cur. induction s as [|ch s IH]; intros cur Hq Hc.
  - by rewrite append_nil_r.
  - unfold no_dquote, no_comma in Hq, Hc. simpl in Hq, Hc.
    apply andb_prop in Hq as [Hch Hq]. apply andb_prop in Hc as [Hch' Hc].
    apply negb_true_iff in Hch, Hch'. unfold is_dquote in Hch.
    rewrite append_cons. simpl. rewrite Hch, Hch'. simpl.
    rewrite (IH _ Hq Hc). by rewrite push_back_append.
Qed.

(** A field is accumulated whole when the line ends after it or goes on
    with a comma. *)
Lemma splitCSV_loop_field f line out cur :
  field_ok f = true →
  (line = EmptyString ∨ ∃ rest, line = String comma rest) →
  splitCSV_loop (write_field f +:+ line) out cur false =
    splitCSV_loop line out (cur +:+ field_text f) false.
Proof.
  intros Hf Hline. destruct f as [s|s]; simpl in Hf |- *.
  - apply andb_prop in Hf as [Hq Hc]. by apply splitCSV_loop_plain.
  - rewrite append_nil_l, append_assoc. by apply splitCSV_loop_escaped.
Qed.

Lemma write_line_cons f f' fields :
  write_line (f :: f' :: fields) =
    write_field f +:+ String comma (write_line (f' :: fields)).
Proof. done. Qed.

Lemma splitCSV_loop_line fields : ∀ f out,
  forallb field_ok (f :: fields) = true →
  splitCSV_loop (write_line (f :: fields)) out EmptyString false =
    out ++ ((λ f, trim (field_text f)) <$> f :: fields).
Proof.
  induction fields as [|f' fields IH]; intros f out Hok;
    simpl in Hok; apply andb_prop in Hok as [Hf Hok].
  - change (write_line [f]) with (write_field f).
    rewrite <- (append_nil_r (write_field f)).
    rewrite splitCSV_loop_field by auto. simpl. by rewrite append_nil_l.
  - rewrite write_line_cons, splitCSV_loop_field by eauto.
    simpl splitCSV_loop. rewrite append_nil_l, IH by done.
    by rewrite <- app_assoc.
Qed.

End splitCSV.

Section segments.
Implicit Types (line s cur : string) (out : list string) (g : Segment)
  (gs : list Segment) (fields : list (list Segment)).

(** A span ends at a quote character that is not followed by another. *)
Lemma splitCSV_loop_span s line out cur :
  match line with String c _ => c ≠ dquote | EmptyString => True end →
  splitCSV_loop (escape_quotes s +:+ String dquote line) out cur true =
    splitCSV_loop line out (cur +:+ s) false.
Proof.
  intros Hline. revert cur. induction s as [|ch s IH]; intros cur.
  - rewrite append_nil_l, append_nil_r. simpl.
    destruct line as [|c r]; [done|]. by rewrite bool_decide_eq_false_2.
  - simpl escape_quotes. unfold is_dquote.
    destruct (bool_decide (ch = dquote)) eqn:Hch.
    + apply bool_decide_eq_true in Hch as ->.
      rewrite !append_cons. simpl. by rewrite IH, push_back_append.
    + rewrite append_cons. simpl. rewrite Hch, andb_false_r.
      by rewrite IH, push_back_append.
Qed.

Lemma write_segments_head gs line :
  segments_ok gs = true →
  (line = EmptyString ∨ ∃ rest, line = String comma rest) →
  match gs with
  | [] | Bare (String _ _) :: _ =>
      match write_segments gs +:+ line with
      | String c _ => c ≠ dquote
      | EmptyString => True
      end
  | _ => True
  end.
Proof.
  intros Hok Hline. destruct gs as [|[[|c s]|s] gs]; [|done| |done].
  - rewrite append_nil_l. by destruct Hline as [->|[rest ->]].
  - simpl in Hok. apply andb_prop in Hok as [[Hq _]%andb_prop _].
    unfold no_dquote in Hq. simpl in Hq. apply andb_prop in Hq as [Hc _].
    apply negb_true_iff, bool_decide_eq_false in Hc. by simpl.
Qed.

Lemma splitCSV_loop_segments gs line out cur :
  segments_ok gs = true →
  (line = EmptyString ∨ ∃ rest, line = String comma rest) →
  splitCSV_loop (write_segments gs +:+ line) out cur false =
    splitCSV_loop line out (cur +:+ segments_text gs) false.
Proof.
  intros Hok Hline. revert cur. induction gs as [|g gs IH]; intros cur.
  - simpl. by rewrite append_nil_l, append_nil_r.
  - simpl write_segments. simpl segments_text. rewrite append_assoc.
    destruct g as [s|s].
    + simpl in Hok. apply andb_prop in Hok as [[Hq Hc]%andb_prop Hok].
      simpl. rewrite splitCSV_loop_plain by done.
      rewrite IH by done. by rewrite append_assoc.
    + assert (segments_ok gs = true) as Hok'.
      { simpl in Hok. destruct gs as [|[[|c t]|t] gs']; done. }
      pose proof (write_segments_head gs line Hok' Hline) as Hhead.
      simpl write_segment. simpl segment_text. unfold quoted.
      rewrite !append_assoc, !append_cons, !append_nil_l. simpl.
      rewrite splitCSV_loop_span.
      * rewrite IH by done. by rewrite append_assoc.
      * simpl in Hok. destruct gs as [|[[|c t]|t] gs']; done.
Qed.

Lemma splitCSV_loop_comma line out cur :
  splitCSV_loop (String comma line) out cur false =
    splitCSV_loop line (out ++ [trim cur]) EmptyString false.
Proof. done. Qed.

Lemma concat_comma_cons (x y : string) (l : list string) :
  String.concat "," (x :: y :: l) = x +:+ String comma (String.concat "," (y :: l)).
Proof. done. Qed.

Lemma splitCSV_loop_segment_line fields : ∀ gs out,
  forallb segments_ok (gs :: fields) = true →
  splitCSV_loop (String.concat "," (write_segments <$> gs :: fields))
    out EmptyString false =
    out ++ ((λ gs, trim (segments_text gs)) <$> gs :: fields).
Proof.
  induction fields as [|gs' fields IH]; intros gs out Hok;
    simpl in Hok; apply andb_prop in Hok as [Hgs Hok].
  - change (String.concat "," (write_segments <$> [gs])) with (write_segments gs).
    rewrite <- (append_nil_r (write_segments gs)).
    rewrite splitCSV_loop_segments by auto. simpl. by rewrite append_nil_l.
  - rewrite (fmap_cons write_segments gs), (fmap_cons write_segments gs').
    rewrite concat_comma_cons, splitCSV_loop_segments by eauto.
    rewrite splitCSV_loop_comma, append_nil_l.
    rewrite <- (fmap_cons write_segments gs'), IH by (simpl; done).
    by rewrite <- app_assoc.
Qed.

End segments.

(** C6. [splitCSV] returns the three fields of the sample line of the
    design document; it returns one field more than the line has commas
    outside quoted spans, hence at least one field for every line, the
    empty one included.  In a line of fields separated by commas, each
    field plain or one quoted span, or more generally made of bare texts
    and quoted spans, the field returned is the trimmed text of the field:
    the commas of a span are kept in it and each doubled quote character of
    a span is one quote character, whichever field of the line the span is
    in. *)
Theorem splitCSV_quoting :
  splitCSV ("CSCI200," +:+ quoted "Data Structures, with Labs" +:+ ",CSCI100")
    = ["CSCI200"; "Data Structures, with Labs"; "CSCI100"]
  ∧ (∀ line, 1 ≤ length (splitCSV line))
  ∧ splitCSV EmptyString = [EmptyString]
  ∧ (∀ line, length (splitCSV line) = S (unquoted_commas line false))
  ∧ (∀ s, splitCSV (quoted (escape_quotes s)) = [trim s])
  ∧ (∀ fields : list Field, fields ≠ [] → forallb field_ok fields = true →
       splitCSV (write_line fields) = (λ f, trim (field_text f)) <$> fields)
  ∧ (∀ fields : list (list Segment),
       fields ≠ [] → forallb segments_ok fields = true →
       splitCSV (String.concat "," (write_segments <$> fields))
         = (λ gs, trim (segments_text gs)) <$> fields).
Proof.
  split; [by vm_compute|]. split; [intros line; rewrite splitCSV_length; lia|].
  split; [by vm_compute|]. split; [apply splitCSV_length|].
  split; [|split].
  - intros s. unfold splitCSV, quoted. rewrite append_cons. simpl.
    rewrite append_nil_l, splitCSV_loop_escaped by auto. simpl.
    by rewrite append_nil_l.
  - intros [|f fields] Hne Hok; [done|]. by apply splitCSV_loop_line.
  - intros [|gs fields] Hne Hok; [done|]. by apply splitCSV_loop_segment_line.
Qed.

Lemma splitCSV_quoting_witness :
  splitCSV ("a, x" +:+ quoted ("b" +:+ String dquote (String dquote "c, d"))
            +:+ "y ,"
            +:+ quoted ("e" +:+ String dquote (String dquote EmptyString)))
    = ["a"; "xb" +:+ String dquote "c, dy"; "e" +:+ String dquote EmptyString].
Proof.
  apply (proj2 (proj2 (proj2 (proj2 (proj2 (proj2 splitCSV_quoting)))))
           [[Bare "a"];
            [Bare " x"; Span ("b" +:+ String dquote "c, d"); Bare "y "];
            [Span ("e" +:+ String dquote EmptyString)]]);
    [discriminate|reflexivity].
Defined.

(** C2, as stated, fails: the white space at the two ends of a quoted
    span is trimmed with the field. *)
Lemma splitCSV_quoted_space_trimmed :
  splitCSV ("a," +:+ quoted " b " +:+ ",c") = ["a"; "b"; "c"]
  ∧ splitCSV (quoted " b ") ≠ [" b "].
Proof. split; [by vm_compute|]. vm_compute. discriminate. Qed.

(** C2, amended.  In a line of fields separated by commas, each plain or
    between quotes, every field is returned trimmed, the quoted ones like the
    plain ones; trimming removes the white space before the first and after
    the last character that is not white space, and nothing else. *)
Theorem splitCSV_trims_fields :
  (∀ fields, fields ≠ [] → forallb field_ok fields = true →
     splitCSV (write_line fields) = (λ f, trim (field_text f)) <$> fields)
  ∧ (∀ a s b, all_space a = true → all_space b = true → trimmed s →
       trim (a +:+ s +:+ b) = s).
Proof.
  split.
  - intros [|f fields] Hne Hok; [done|]. by apply splitCSV_loop_line.
  - apply trim_spec.
Qed.

Lemma splitCSV_trims_fields_witness :
  splitCSV ("a ," +:+ quoted " b, c " +:+ ", d") = ["a"; "b, c"; "d"].
Proof.
  apply (proj1 splitCSV_trims_fields [Plain "a "; Quoted " b, c "; Plain " d"]);
    [discriminate|reflexivity].
Defined.

(** ** loadCoursesFromFile *)

Section load.
Implicit Types (line : string) (lines : list string) (t : CourseTable)
  (n : nat) (e : string).

Lemma load_loop_cons line lines n t e :
  load_loop (line :: lines) n t e =
    load_loop lines (S n) (line_table t line) (e +:+ line_cerr (S n) line).
Proof.
  simpl. unfold line_table, line_course, line_cerr.
  destruct (empty (trim line)); simpl; [by rewrite append_nil_r|].
  destruct (length (splitCSV (trim line)) <? 2); simpl; [done|].
  rewrite append_nil_r.
  by destruct (empty (normalizeCourseId (nth 0 (splitCSV (trim line)) EmptyString))).
Qed.

Lemma load_loop_table lines n t e :
  (load_loop lines n t e).1 = foldl line_table t lines.
Proof.
  revert n t e. induction lines as [|line lines IH]; intros n t e; [done|].
  rewrite load_loop_cons. apply IH.
Qed.

Lemma load_loop_cerr lines n t e :
  (load_loop lines n t e).2 = e +:+ warnings lines n.
Proof.
  unfold warnings. revert n t e.
  induction lines as [|line lines IH]; intros n t e.
  - simpl. by rewrite append_nil_r.
  - rewrite !load_loop_cons, IH, (IH _ _ (_ +:+ _)).
    by rewrite append_nil_l, append_assoc.
Qed.

Lemma warnings_cons line lines n :
  warnings (line :: lines) n = line_cerr (S n) line +:+ warnings lines (S n).
Proof. unfold warnings at 1. by rewrite load_loop_cons, load_loop_cerr. Qed.

Lemma warnings_app l1 l2 n :
  warnings (l1 ++ l2) n = warnings l1 n +:+ warnings l2 (n + length l1).
Proof.
  revert n. induction l1 as [|line l1 IH]; intros n.
  - simpl. by rewrite Nat.add_0_r.
  - simpl app. rewrite !warnings_cons, IH, append_assoc. simpl.
    by rewrite Nat.add_succ_r.
Qed.

Lemma line_table_keyed t line :
  keyed_by_number t → keyed_by_number (line_table t line).
Proof.
  intros Ht k c. unfold line_table. destruct (line_course line) as [c'|]; [|apply Ht].
  rewrite lookup_insert. case_decide; [naive_solver|apply Ht].
Qed.

Lemma foldl_line_table_keyed lines t :
  keyed_by_number t → keyed_by_number (foldl line_table t lines).
Proof.
  revert t. induction lines as [|line lines IH]; intros t Ht; [done|].
  simpl. by apply IH, line_table_keyed.
Qed.

(** A key survives the lines that do not define it. *)
Lemma foldl_line_table_other lines t k :
  (∀ line c, line ∈ lines → line_course line = Some c → number c ≠ k) →
  foldl line_table t lines !! k = t !! k.
Proof.
  revert t. induction lines as [|line lines IH]; intros t Hl; [done|].
  simpl. rewrite IH by (intros ????; eapply Hl; [by right|done]).
  unfold line_table. destruct (line_course line) as [c|] eqn:Hc; [|done].
  apply lookup_insert_ne. eapply Hl; [by left|done].
Qed.

Lemma line_course_None line :
  normalizeCourseId (nth 0 (splitCSV (trim line)) EmptyString) = EmptyString →
  line_course line = None.
Proof.
  intros Hk. unfold line_course.
  destruct (empty (trim line)); [done|].
  destruct (length (splitCSV (trim line)) <? 2); [done|].
  simpl. by rewrite Hk.
Qed.

Lemma line_course_Some line :
  empty (trim line) = false →
  2 ≤ length (splitCSV (trim line)) →
  normalizeCourseId (nth 0 (splitCSV (trim line)) EmptyString) ≠ EmptyString →
  line_course line = Some (make_course (splitCSV (trim line)))
  ∧ ∀ n, line_cerr n line = EmptyString.
Proof.
  intros Hb Hf Hk. unfold line_course, line_cerr. rewrite Hb.
  destruct (Nat.ltb_spec (length (splitCSV (trim line))) 2) as [?|_]; [lia|].
  simpl. split; [|done].
  destruct (normalizeCourseId _) eqn:E; [done|done].
Qed.

Lemma loadCoursesFromFile_Some fs filename text state :
  fs filename = Some text →
  loadCoursesFromFile fs filename state =
    let lines := getlines text EmptyString in
    let t := foldl line_table ∅ lines in
    (true,
     {| loaded := true; courses := t; sortedKeys := sort (table_keys t) |},
     {| to_cout := loaded_message (size t) filename;
        to_cerr := warnings lines 0 |}).
Proof.
  intros Hf. unfold loadCoursesFromFile. rewrite Hf.
  pose proof (load_loop_table (getlines text EmptyString) 0 ∅ EmptyString) as Ht.
  pose proof (load_loop_cerr (getlines text EmptyString) 0 ∅ EmptyString) as He.
  destruct (load_loop _ _ _ _) as [t e]. simpl in *. by subst.
Qed.

Lemma loadCoursesFromFile_ok fs filename state :
  (loadCoursesFromFile fs filename state).1.1 = true →
  ∃ text, fs filename = Some text.
Proof.
  unfold loadCoursesFromFile. destruct (fs filename) as [text|]; [by eexists|done].
Qed.

Lemma foldl_line_table_app t l1 l2 :
  foldl line_table t (l1 ++ l2) = foldl line_table (foldl line_table t l1) l2.
Proof. apply foldl_app. Qed.

End load.

(** C1, as stated, fails: a line with two fields whose identifier is
    empty is skipped without a warning. *)
Lemma load_empty_key_no_warning :
  let text := ",Intro" +:+ endl in
  getlines text EmptyString = [",Intro"]
  ∧ normalizeCourseId (nth 0 (splitCSV (trim ",Intro")) EmptyString) = EmptyString
  ∧ let '(ok, state', out) :=
      loadCoursesFromFile (one_file "f" text) "f" initial_state in
    ok = true ∧ courses state' = ∅ ∧ to_cerr out = EmptyString.
Proof. by vm_compute. Qed.

(** C1, amended.  A line whose first field normalises to the empty text
    is skipped: the load builds the table it would build without the line.
    The line writes the warning with its 1-based number when, trimmed, it is
    not blank and has fewer than two fields, and writes nothing otherwise. *)
Theorem load_empty_key_line fs filename text state l1 line l2 :
  fs filename = Some text →
  getlines text EmptyString = l1 ++ line :: l2 →
  normalizeCourseId (nth 0 (splitCSV (trim line)) EmptyString) = EmptyString →
  let '(ok, state', out) := loadCoursesFromFile fs filename state in
  ok = true
  ∧ courses state' = (load_loop (l1 ++ l2) 0 ∅ EmptyString).1
  ∧ to_cerr out =
      warnings l1 0
      +:+ (if negb (empty (trim line)) && (length (splitCSV (trim line)) <? 2)
           then malformed_warning (S (length l1)) else EmptyString)
      +:+ warnings l2 (S (length l1)).
Proof.
  intros Hf Hl Hk. rewrite (loadCoursesFromFile_Some _ _ _ _ Hf). simpl.
  rewrite Hl. split; [done|]. split.
  - rewrite load_loop_table, !foldl_line_table_app. simpl.
    unfold line_table at 2. by rewrite line_course_None.
  - by rewrite warnings_app, warnings_cons.
Qed.

Lemma load_empty_key_line_witness :
  let '(ok, state', out) :=
    loadCoursesFromFile
      (one_file "f" ("CS1,A" +:+ endl +:+ ",Intro" +:+ endl +:+ "-" +:+ endl))
      "f" initial_state in
  ok = true
  ∧ courses state' = (load_loop (["CS1,A"] ++ ["-"]) 0 ∅ EmptyString).1
  ∧ to_cerr out =
      warnings ["CS1,A"] 0
      +:+ (if negb (empty (trim ",Intro")) && (length (splitCSV (trim ",Intro")) <? 2)
           then malformed_warning 2 else EmptyString)
      +:+ warnings ["-"] 2.
Proof.
  apply (load_empty_key_line
           (one_file "f" ("CS1,A" +:+ endl +:+ ",Intro" +:+ endl +:+ "-" +:+ endl))
           "f" ("CS1,A" +:+ endl +:+ ",Intro" +:+ endl +:+ "-" +:+ endl)
           initial_state ["CS1,A"] ",Intro" ["-"]); reflexivity.
Defined.

(** C3. After a successful load, a load from a source that cannot be
    opened fails and returns the state unchanged: the table, the sorted keys
    and the flag are those left by the successful load. *)
Theorem failed_load_preserves_state fs1 f1 state0 fs2 f2 :
  (loadCoursesFromFile fs1 f1 state0).1.1 = true →
  fs2 f2 = None →
  let state1 := (loadCoursesFromFile fs1 f1 state0).1.2 in
  let '(ok, state2, _) := loadCoursesFromFile fs2 f2 state1 in
  ok = false
  ∧ courses state2 = courses state1
  ∧ sortedKeys state2 = sortedKeys state1
  ∧ loaded state2 = loaded state1
  ∧ loaded state2 = true.
Proof.
  intros [text Hf]%loadCoursesFromFile_ok Hnone.
  rewrite (loadCoursesFromFile_Some _ _ _ _ Hf). simpl.
  unfold loadCoursesFromFile. by rewrite Hnone.
Qed.

Lemma failed_load_preserves_state_witness :
  let fs1 := one_file "courses.csv" ("CS200,First" +:+ endl) in
  let state1 := (loadCoursesFromFile fs1 "courses.csv" initial_state).1.2 in
  let '(ok, state2, _) := loadCoursesFromFile no_file "missing.csv" state1 in
  ok = false
  ∧ courses state2 = courses state1
  ∧ sortedKeys state2 = sortedKeys state1
  ∧ loaded state2 = loaded state1
  ∧ loaded state2 = true.
Proof.
  apply (failed_load_preserves_state
           (one_file "courses.csv" ("CS200,First" +:+ endl)) "courses.csv"
           initial_state no_file "missing.csv"); reflexivity.
Defined.

(** ** The sorted keys *)

Section sort.
Implicit Types (t : CourseTable) (k : string) (l : list string).

Lemma le_ne_lt a b : String.le a b → a ≠ b → string_lt a b.
Proof.
  unfold String.le, string_lt, String.leb, String.ltb. intros Hle Hne.
  destruct (String.compare a b) eqn:Hc; [|done|done].
  by apply String.compare_eq_iff in Hc.
Qed.

Lemma StronglySorted_le_lt l :
  StronglySorted String.le l → NoDup l → StronglySorted string_lt l.
Proof.
  induction 1 as [|a l Hs IH Hall]; intros Hnd; [constructor|].
  apply NoDup_cons in Hnd as [Ha Hnd]. constructor; [by apply IH|].
  apply Forall_forall. intros b Hb. apply le_ne_lt.
  - by eapply Forall_forall in Hall.
  - by intros ->.
Qed.

Lemma filter_eq_NoDup l k :
  NoDup l → k ∈ l → length (filter (λ k', k' = k) l) = 1.
Proof.
  induction l as [|x l IH]; intros Hnd Hk.
  - by apply elem_of_nil in Hk.
  - apply NoDup_cons in Hnd as [Hx Hnd]. rewrite filter_cons.
    destruct (decide (x = k)) as [->|Hne].
    + simpl. f_equal. clear IH Hk Hnd. induction l as [|y l IH]; [done|].
      rewrite filter_cons. apply not_elem_of_cons in Hx as [Hy Hx].
      rewrite decide_False by done. by apply IH.
    + apply elem_of_cons in Hk as [->|Hk]; [done|]. by apply IH.
Qed.

Lemma elem_of_table_keys t k : k ∈ table_keys t ↔ is_Some (t !! k).
Proof.
  unfold table_keys. rewrite list_elem_of_fmap. split.
  - intros ([k' c] & -> & Hin). apply elem_of_map_to_list in Hin. by exists c.
  - intros [c Hc]. exists (k, c). split; [done|]. by apply elem_of_map_to_list.
Qed.

Lemma NoDup_table_keys t : NoDup (table_keys t).
Proof. apply NoDup_fst_map_to_list. Qed.

Lemma sort_table_keys t :
  StronglySorted string_lt (sort (table_keys t))
  ∧ NoDup (sort (table_keys t))
  ∧ (∀ k, k ∈ sort (table_keys t) ↔ is_Some (t !! k))
  ∧ length (sort (table_keys t)) = size t.
Proof.
  pose proof (merge_sort_Permutation String.le (table_keys t)) as Hp.
  assert (NoDup (sort (table_keys t))) as Hnd.
  { unfold sort. rewrite Hp. apply NoDup_table_keys. }
  split; [|split; [done|split]].
  - apply StronglySorted_le_lt; [|done]. apply StronglySorted_merge_sort; apply _.
  - intros k. unfold sort. rewrite Hp. apply elem_of_table_keys.
  - unfold sort. rewrite Hp. unfold table_keys.
    by rewrite length_fmap, length_map_to_list.
Qed.

End sort.

(** C4. After a successful load every course of the table sits under its
    own number, and the sorted keys are the keys of the table in strictly
    ascending lexicographic order: each key of the table occurs in them,
    nothing else does, and none occurs twice. *)
Theorem load_invariants fs filename state :
  (loadCoursesFromFile fs filename state).1.1 = true →
  let state' := (loadCoursesFromFile fs filename state).1.2 in
  (∀ k c, courses state' !! k = Some c → number c = k)
  ∧ StronglySorted string_lt (sortedKeys state')
  ∧ NoDup (sortedKeys state')
  ∧ (∀ k, k ∈ sortedKeys state' ↔ is_Some (courses state' !! k))
  ∧ length (sortedKeys state') = size (courses state').
Proof.
  intros [text Hf]%loadCoursesFromFile_ok.
  rewrite (loadCoursesFromFile_Some _ _ _ _ Hf). simpl. split.
  - apply foldl_line_table_keyed. intros k c. by rewrite lookup_empty.
  - apply sort_table_keys.
Qed.

Lemma load_invariants_witness :
  let state' :=
    (loadCoursesFromFile
       (one_file "f" ("MATH201,Discrete" +:+ endl +:+ "cs-200,Data" +:+ endl))
       "f" initial_state).1.2 in
  (∀ k c, courses state' !! k = Some c → number c = k)
  ∧ StronglySorted string_lt (sortedKeys state')
  ∧ NoDup (sortedKeys state')
  ∧ (∀ k, k ∈ sortedKeys state' ↔ is_Some (courses state' !! k))
  ∧ length (sortedKeys state') = size (courses state').
Proof.
  apply (load_invariants
           (one_file "f" ("MATH201,Discrete" +:+ endl +:+ "cs-200,Data" +:+ endl))
           "f" initial_state); reflexivity.
Defined.

(** C5. When two lines of the source carry identifiers that normalise to
    the same key and no later line carries that key, the table holds under
    the key the course of the second line, with the title of that line;
    the key occurs once in the sorted keys; and neither line writes a
    warning: [cerr] holds the warnings of the other lines only. *)
Theorem load_last_write_wins fs filename text state l1 a l2 b l3 k :
  fs filename = Some text →
  getlines text EmptyString = l1 ++ a :: l2 ++ b :: l3 →
  empty (trim a) = false → 2 ≤ length (splitCSV (trim a)) →
  empty (trim b) = false → 2 ≤ length (splitCSV (trim b)) →
  k ≠ EmptyString →
  normalizeCourseId (nth 0 (splitCSV (trim a)) EmptyString) = k →
  normalizeCourseId (nth 0 (splitCSV (trim b)) EmptyString) = k →
  (∀ line, line ∈ l3 → 2 ≤ length (splitCSV (trim line)) →
     normalizeCourseId (nth 0 (splitCSV (trim line)) EmptyString) ≠ k) →
  let '(ok, state', out) := loadCoursesFromFile fs filename state in
  ok = true
  ∧ (∃ c, courses state' !! k = Some c
          ∧ number c = k
          ∧ title c = nth 1 (splitCSV (trim b)) EmptyString
          ∧ c = make_course (splitCSV (trim b)))
  ∧ length (filter (λ k', k' = k) (table_keys (courses state'))) = 1
  ∧ length (filter (λ k', k' = k) (sortedKeys state')) = 1
  ∧ to_cerr out =
      warnings l1 0
      +:+ warnings l2 (S (length l1))
      +:+ warnings l3 (S (S (length l1 + length l2))).
Proof.
  intros Hf Hl Ha1 Ha2 Hb1 Hb2 Hk Hka Hkb Hl3.
  rewrite (loadCoursesFromFile_Some _ _ _ _ Hf). simpl. rewrite Hl.
  destruct (line_course_Some a Ha1 Ha2 ltac:(by rewrite Hka)) as [Hca Hea].
  destruct (line_course_Some b Hb1 Hb2 ltac:(by rewrite Hkb)) as [Hcb Heb].
  assert (foldl line_table ∅ (l1 ++ a :: l2 ++ b :: l3) !! k
          = Some (make_course (splitCSV (trim b)))) as Hlook.
  { rewrite foldl_line_table_app. simpl. rewrite foldl_line_table_app. simpl.
    rewrite foldl_line_table_other.
    - unfold line_table at 1. rewrite Hcb. simpl. rewrite Hkb. apply lookup_insert_eq.
    - intros line c Hin Hc. unfold line_course in Hc.
      destruct (empty (trim line)); [done|].
      destruct (Nat.ltb_spec (length (splitCSV (trim line))) 2) as [?|Hlen]; [done|].
      simpl in Hc. destruct (empty (normalizeCourseId _)); simplify_eq/=.
      by apply Hl3. }
  split; [done|]. split; [|split; [|split]].
  - eexists. split; [exact Hlook|]. by rewrite <- Hkb.
  - apply filter_eq_NoDup; [apply NoDup_table_keys|].
    apply elem_of_table_keys. by rewrite Hlook.
  - destruct (sort_table_keys (foldl line_table ∅ (l1 ++ a :: l2 ++ b :: l3)))
      as (_ & Hnd & Hin & _).
    apply filter_eq_NoDup; [done|]. apply Hin. by rewrite Hlook.
  - rewrite warnings_app, warnings_cons, warnings_app, warnings_cons.
    rewrite Hea, Heb, !append_nil_l. simpl.
    replace (S (length l1) + length l2) with (length l1 + length l2 + 1) by lia.
    by replace (S (length l1 + length l2 + 1)) with (S (S (length l1 + length l2))) by lia.
Qed.

Lemma load_last_write_wins_witness :
  let text := "CS200,First" +:+ endl +:+ "cs-200,Second" +:+ endl
              +:+ "MATH1,Calc" +:+ endl in
  let '(ok, state', out) :=
    loadCoursesFromFile (one_file "f" text) "f" initial_state in
  ok = true
  ∧ (∃ c, courses state' !! "CS200" = Some c
          ∧ number c = "CS200"
          ∧ title c = "Second"
          ∧ c = make_course ["cs-200"; "Second"])
  ∧ length (filter (λ k', k' = "CS200") (table_keys (courses state'))) = 1
  ∧ length (filter (λ k', k' = "CS200") (sortedKeys state')) = 1
  ∧ to_cerr out = EmptyString.
Proof.
  apply (load_last_write_wins
           (one_file "f" ("CS200,First" +:+ endl +:+ "cs-200,Second" +:+ endl
                          +:+ "MATH1,Calc" +:+ endl))
           "f"
           ("CS200,First" +:+ endl +:+ "cs-200,Second" +:+ endl
            +:+ "MATH1,Calc" +:+ endl)
           initial_state [] "CS200,First" [] "cs-200,Second" ["MATH1,Calc"] "CS200");
    try reflexivity; try (vm_compute; lia); try discriminate.
  intros line Hin _. apply list_elem_of_singleton in Hin. subst line.
  vm_compute. discriminate.
Defined.

(** ** printSingleCourse *)

Section query.
Implicit Types (t : CourseTable) (state : ProgramState) (q s : string).

Lemma concat_cons x y (l : list string) sep :
  String.concat sep (x :: y :: l) = x +:+ sep +:+ String.concat sep (y :: l).
Proof. done. Qed.

Lemma prereq_print_loop_cons t pid rest cout :
  prereq_print_loop t (pid :: rest) cout =
    prereq_print_loop t rest
      (cout +:+ render_entry (resolve t pid)
       +:+ match rest with [] => EmptyString | _ :: _ => ", " end).
Proof.
  cbn [prereq_print_loop]. f_equal. unfold render_entry, resolve.
  destruct (t !! pid), rest; simpl; by rewrite ?append_nil_r, ?append_assoc.
Qed.

Lemma prereq_print_loop_concat t prereqs cout :
  prereq_print_loop t prereqs cout =
    cout +:+ String.concat ", " (render_entry <$> (resolve t <$> prereqs)).
Proof.
  revert cout. induction prereqs as [|pid rest IH]; intros cout.
  - simpl. by rewrite append_nil_r.
  - rewrite prereq_print_loop_cons, IH. destruct rest as [|pid' rest].
    + simpl. by rewrite !append_nil_r.
    + rewrite !fmap_cons, concat_cons. by rewrite ?append_assoc.
Qed.

Lemma printSingleCourse_found state q c :
  loaded state = true →
  normalizeCourseId q ≠ EmptyString →
  courses state !! normalizeCourseId q = Some c →
  printSingleCourse state q =
    course_prompt +:+
    render {| described := (number c, title c);
              prerequisites :=
                match prereqNumbers c with
                | [] => NoPrerequisites
                | pid :: rest => Resolved (resolve (courses state) <$> pid :: rest)
                end |}.
Proof.
  intros Hl Hq Hc. unfold printSingleCourse. rewrite Hl. simpl negb. cbv iota.
  destruct (normalizeCourseId q) as [|ch k] eqn:Hk; [done|].
  simpl empty. cbv iota. rewrite Hc. unfold render. simpl.
  destruct (prereqNumbers c) as [|pid rest].
  - simpl. by rewrite ?append_assoc.
  - rewrite bool_decide_eq_false_2 by done.
    rewrite prereq_print_loop_concat. unfold render_prerequisites.
    by rewrite ?append_assoc.
Qed.

Lemma render_resolve t (l : list string) :
  render_entry <$> (resolve t <$> l) =
    (λ pid, match t !! pid with
            | Some p => number p +:+ " (" +:+ title p +:+ ")"
            | None => pid +:+ " (missing)"
            end) <$> l.
Proof.
  rewrite <- list_fmap_compose. apply list_fmap_ext. intros _ pid _.
  unfold compose, resolve, render_entry. by destruct (t !! pid).
Qed.

Lemma no_comma_found s u : no_comma (s +:+ ", " +:+ u) = false.
Proof.
  unfold no_comma. rewrite string_forall_append. simpl.
  by rewrite andb_false_r.
Qed.

End query.

(** C7. For a loaded catalogue and a query whose key is in the table,
    [printSingleCourse] shows the number and title of the course followed,
    when the course has no prerequisite, by the marker "Prerequisites: None"
    and otherwise by one entry per stored prerequisite, in the stored order:
    the number and title of the prerequisite when its key is in the table,
    the stored identifier and "missing" when it is not.  The marker is not
    what an empty sequence of entries would show. *)
Theorem printSingleCourse_describes state q c :
  loaded state = true →
  normalizeCourseId q ≠ EmptyString →
  courses state !! normalizeCourseId q = Some c →
  printSingleCourse state q =
    course_prompt +:+
    render {| described := (number c, title c);
              prerequisites :=
                match prereqNumbers c with
                | [] => NoPrerequisites
                | pid :: rest => Resolved (resolve (courses state) <$> pid :: rest)
                end |}
  ∧ (prereqNumbers c = [] →
     printSingleCourse state q =
       course_prompt +:+ number c +:+ ", " +:+ title c +:+ endl
       +:+ "Prerequisites: None" +:+ endl)
  ∧ (prereqNumbers c ≠ [] →
     printSingleCourse state q =
       course_prompt +:+ number c +:+ ", " +:+ title c +:+ endl
       +:+ "Prerequisites: "
       +:+ String.concat ", "
             ((λ pid, match courses state !! pid with
                      | Some p => number p +:+ " (" +:+ title p +:+ ")"
                      | None => pid +:+ " (missing)"
                      end) <$> prereqNumbers c)
       +:+ endl)
  ∧ render {| described := (number c, title c); prerequisites := NoPrerequisites |}
    ≠ render {| described := (number c, title c); prerequisites := Resolved [] |}.
Proof.
  intros Hl Hq Hc. split; [by apply printSingleCourse_found|]. split; [|split].
  - intros Hp. rewrite (printSingleCourse_found _ _ _ Hl Hq Hc), Hp.
    unfold render. simpl. by rewrite ?append_assoc.
  - intros Hp. rewrite (printSingleCourse_found _ _ _ Hl Hq Hc).
    destruct (prereqNumbers c) as [|pid rest]; [done|].
    unfold render, render_prerequisites. cbn [described prerequisites fst snd].
    rewrite render_resolve. by rewrite ?append_assoc.
  - unfold render. simpl. intros Heq.
    do 3 apply (inj (String.append _)) in Heq. discriminate.
Qed.

Lemma printSingleCourse_describes_witness :
  let state :=
    (loadCoursesFromFile
       (one_file "f" ("CS300,Algorithms,cs-200,CS999" +:+ endl
                      +:+ "CS200,Data Structures" +:+ endl))
       "f" initial_state).1.2 in
  printSingleCourse state " cs 300" =
    course_prompt +:+
    render {| described := ("CS300", "Algorithms");
              prerequisites :=
                Resolved [("CS200", "Data Structures"); ("CS999", "missing")] |}.
Proof.
  apply (proj1 (printSingleCourse_describes
           (loadCoursesFromFile
              (one_file "f" ("CS300,Algorithms,cs-200,CS999" +:+ endl
                             +:+ "CS200,Data Structures" +:+ endl))
              "f" initial_state).1.2
           " cs 300"
           (make_course ["CS300"; "Algorithms"; "cs-200"; "CS999"])
           ltac:(reflexivity) ltac:(vm_compute; discriminate) ltac:(reflexivity))).
Defined.

(** C8. For a loaded catalogue, [printSingleCourse] answers "No course
    entered." exactly when the query normalises to the empty text, as the
    empty query and the query of three spaces do, and the answer is then the
    same whatever the table holds; it answers "Course not found." when the
    query normalises to a key that the table lacks; the two answers
    differ. *)
Theorem printSingleCourse_empty_or_absent state q :
  loaded state = true →
  (printSingleCourse state q = course_prompt +:+ no_course_message
     ↔ normalizeCourseId q = EmptyString)
  ∧ (normalizeCourseId q = EmptyString →
     ∀ state', loaded state' = true →
       printSingleCourse state' q = printSingleCourse state q)
  ∧ (normalizeCourseId q ≠ EmptyString →
     courses state !! normalizeCourseId q = None →
     printSingleCourse state q = course_prompt +:+ not_found_message)
  ∧ course_prompt +:+ no_course_message ≠ course_prompt +:+ not_found_message
  ∧ normalizeCourseId EmptyString = EmptyString
  ∧ normalizeCourseId "   " = EmptyString.
Proof.
  intros Hl.
  assert (∀ st, loaded st = true → normalizeCourseId q = EmptyString →
            printSingleCourse st q = course_prompt +:+ no_course_message) as Hempty.
  { intros st Hst Hq. unfold printSingleCourse. by rewrite Hst, Hq. }
  assert (normalizeCourseId q ≠ EmptyString →
          courses state !! normalizeCourseId q = None →
          printSingleCourse state q = course_prompt +:+ not_found_message) as Habsent.
  { intros Hq Hc. unfold printSingleCourse. rewrite Hl, Hc.
    by destruct (normalizeCourseId q). }
  split; [split; [|by apply Hempty]|].
  - intros Hout. destruct (decide (normalizeCourseId q = EmptyString)) as [|Hq]; [done|].
    exfalso. destruct (courses state !! normalizeCourseId q) as [c|] eqn:Hc in |- *.
    + rewrite (printSingleCourse_found _ _ _ Hl Hq Hc) in Hout.
      apply (inj (String.append _)) in Hout. unfold render in Hout.
      apply (f_equal no_comma) in Hout. by rewrite no_comma_found in Hout.
    + rewrite (Habsent Hq) in Hout by done. by apply (inj (String.append _)) in Hout.
  - split; [|split; [done|split; [|by vm_compute]]].
    + intros Hq st Hst. by rewrite !Hempty.
    + intros Heq. by apply (inj (String.append _)) in Heq.
Qed.

Lemma printSingleCourse_empty_or_absent_witness :
  let state :=
    (loadCoursesFromFile (one_file "f" ("CS200,Data Structures" +:+ endl))
       "f" initial_state).1.2 in
  printSingleCourse state "ZZ000" = course_prompt +:+ not_found_message.
Proof.
  apply (proj1 (proj2 (proj2 (printSingleCourse_empty_or_absent
           (loadCoursesFromFile (one_file "f" ("CS200,Data Structures" +:+ endl))
              "f" initial_state).1.2
           "ZZ000" ltac:(reflexivity))))).
  - vm_compute. discriminate.
  - reflexivity.
Defined.

(** ** The flag *)

Section flag.
Implicit Types (state : ProgramState) (fs : FileSystem).

Lemma loadCoursesFromFile_loaded fs filename state :
  loaded state = true →
  loaded (loadCoursesFromFile fs filename state).1.2 = true.
Proof.
  intros Hl. unfold loadCoursesFromFile. destruct (fs filename) as [text|]; [|done].
  by destruct (load_loop _ _ _ _).
Qed.

Lemma step_loaded fs state cmd :
  loaded state = true → loaded (step fs state cmd) = true.
Proof.
  intros Hl. destruct cmd as [fname| | |]; simpl; [|done..].
  destruct (empty (trim fname)); simpl; [done|].
  by apply loadCoursesFromFile_loaded.
Qed.

Lemma run_loaded state script :
  loaded state = true → loaded (run state script) = true.
Proof.
  revert state. induction script as [|[fs cmd] script IH]; intros state Hl; [done|].
  simpl. by apply IH, step_loaded.
Qed.

Lemma list_loop_comma t ids cout out :
  list_loop t ids cout = Some out →
  ∃ rest, out = cout +:+ rest ∧ (ids ≠ [] → no_comma rest = false).
Proof.
  revert cout. induction ids as [|id ids IH]; intros cout Hout; simpl in Hout.
  - simplify_eq. exists EmptyString. by rewrite append_nil_r.
  - destruct (t !! id) as [c|]; [|done].
    apply IH in Hout as (rest & -> & _).
    exists (id +:+ ", " +:+ (title c +:+ endl) +:+ rest). split.
    + by rewrite ?append_assoc.
    + intros _. apply no_comma_found.
Qed.

Lemma printCourseList_loaded state :
  loaded state = true → printCourseList state ≠ Some not_loaded_message.
Proof.
  intros Hl. unfold printCourseList. rewrite Hl. simpl.
  destruct (sortedKeys state) as [|id ids]; [done|]. intros Hout.
  apply list_loop_comma in Hout as (rest & Hrest & Hcomma).
  rewrite append_nil_l in Hrest. subst rest.
  by specialize (Hcomma ltac:(done)).
Qed.

Lemma printSingleCourse_loaded state input :
  loaded state = true → printSingleCourse state input ≠ not_loaded_message.
Proof.
  intros Hl. unfold printSingleCourse. rewrite Hl. simpl negb. cbv iota.
  destruct (empty _); [done|]. destruct (_ !! _); [|done].
  rewrite prereq_print_loop_concat.
  destruct (bool_decide _); by rewrite ?append_assoc.
Qed.

End flag.

(** C10. Once a load has succeeded the flag is set, and it stays set
    through every later pass of the menu loop, whatever the choices and
    whatever the files then are, a load that fails included; afterwards
    neither query answers that the data must be loaded first. *)
Theorem loaded_monotone fs filename state0 script :
  (loadCoursesFromFile fs filename state0).1.1 = true →
  let state := (loadCoursesFromFile fs filename state0).1.2 in
  loaded state = true
  ∧ loaded (run state script) = true
  ∧ (∀ fs' filename',
       loaded (loadCoursesFromFile fs' filename' (run state script)).1.2 = true)
  ∧ printCourseList (run state script) ≠ Some not_loaded_message
  ∧ ∀ input, printSingleCourse (run state script) input ≠ not_loaded_message.
Proof.
  intros [text Hf]%loadCoursesFromFile_ok. intros state.
  assert (loaded state = true) as Hl.
  { unfold state. by rewrite (loadCoursesFromFile_Some _ _ _ _ Hf). }
  pose proof (run_loaded state script Hl) as Hrun.
  split; [done|]. split; [done|]. split; [|split].
  - intros fs' filename'. by apply loadCoursesFromFile_loaded.
  - by apply printCourseList_loaded.
  - intros input. by apply printSingleCourse_loaded.
Qed.

Lemma loaded_monotone_witness :
  let state :=
    (loadCoursesFromFile (one_file "f" ("CS200,Data Structures" +:+ endl))
       "f" initial_state).1.2 in
  loaded (run state [(no_file, LoadData "g"); (no_file, PrintList);
                     (one_file "h" EmptyString, LoadData " h ")]) = true.
Proof.
  apply (proj1 (proj2 (loaded_monotone
           (one_file "f" ("CS200,Data Structures" +:+ endl)) "f" initial_state
           [(no_file, LoadData "g"); (no_file, PrintList);
            (one_file "h" EmptyString, LoadData " h ")]
           ltac:(reflexivity)))).
Defined.

(** * Further properties *)

(** ** ltrim, rtrim, trim *)

Section trim_more.
Implicit Types (s t : string) (ch : ascii).

Lemma drop_spaces_split s :
  ∃ a, s = a +:+ drop_spaces s ∧ all_space a = true.
Proof.
  induction s as [|ch s (a & Ha & Hsp)]; [by exists EmptyString|].
  simpl. destruct (isspace ch) eqn:Hch.
  - exists (String ch a). rewrite append_cons, <- Ha. split; [done|].
    unfold all_space in *. simpl. by rewrite Hch, Hsp.
  - by exists EmptyString.
Qed.

Lemma drop_spaces_head s :
  match drop_spaces s with
  | EmptyString => True
  | String ch _ => isspace ch = false
  end.
Proof.
  induction s as [|ch s IH]; [done|]. simpl.
  destruct (isspace ch) eqn:Hch; [done|]. simpl. by rewrite Hch.
Qed.

Lemma drop_trailing_split s :
  ∃ b, s = drop_trailing s +:+ b ∧ all_space b = true.
Proof.
  induction s as [|ch s (b & Hb & Hsp)]; [by exists EmptyString|].
  simpl. destruct (drop_trailing s) as [|c r] eqn:Hr; simpl.
  - destruct (isspace ch) eqn:Hch.
    + exists (String ch b). rewrite append_nil_l in *. subst b.
      split; [done|]. unfold all_space in *. simpl. by rewrite Hch, Hsp.
    + exists b. by rewrite append_cons, <- Hb.
  - exists b. by rewrite append_cons, <- Hb.
Qed.

Lemma drop_trailing_last s :
  match drop_trailing s with
  | EmptyString => True
  | String ch rest =>
      ∃ c, String.get (String.length rest) (String ch rest) = Some c
           ∧ isspace c = false
  end.
Proof.
  induction s as [|ch s IH]; [done|]. simpl.
  destruct (drop_trailing s) as [|c r]; simpl.
  - destruct (isspace ch) eqn:Hch; [done|]. by exists ch.
  - exact IH.
Qed.

Lemma drop_trailing_trimmed ch s :
  isspace ch = false → trimmed (drop_trailing (String ch s)).
Proof.
  intros Hch. pose proof (drop_trailing_last (String ch s)) as Hl.
  simpl in *. rewrite Hch, andb_false_r in *. by split.
Qed.

(** The white space that [trim] removes, and what it leaves. *)
Lemma trim_split s :
  ∃ a b, s = a +:+ trim s +:+ b
         ∧ all_space a = true ∧ all_space b = true ∧ trimmed (trim s).
Proof.
  destruct (drop_spaces_split s) as (a & Ha & Hsa).
  pose proof (drop_spaces_head s) as Hh.
  destruct (drop_trailing_split (drop_spaces s)) as (b & Hb & Hsb).
  assert (trimmed (drop_trailing (drop_spaces s))) as Ht.
  { destruct (drop_spaces s) as [|ch r]; [done|]. by apply drop_trailing_trimmed. }
  assert (trim s = drop_trailing (drop_spaces s)) as ->.
  { rewrite Ha at 1. rewrite Hb at 1. by apply trim_spec. }
  exists a, b. by rewrite <- Hb, <- Ha.
Qed.

Lemma trim_trimmed s : trimmed (trim s).
Proof. by destruct (trim_split s) as (_ & _ & _ & _ & _ & H). Qed.

Lemma trim_fixed s : trimmed s → trim s = s.
Proof.
  intros Hs. rewrite <- (append_nil_r s) at 1.
  by apply (trim_spec EmptyString s EmptyString).
Qed.

Lemma trim_all_space s : all_space s = true → trim s = EmptyString.
Proof.
  intros Hs. rewrite <- (append_nil_r s).
  by apply (trim_spec s EmptyString EmptyString).
Qed.

Lemma all_space_append s t :
  all_space (s +:+ t) = all_space s && all_space t.
Proof. apply string_forall_append. Qed.

End trim_more.

(** X1. [trim] returns a text that neither begins nor ends with white
    space, obtained from its argument by removing white space at the two
    ends only; applying [trim] again changes nothing. *)
Theorem trim_idempotent s :
  trimmed (trim s)
  ∧ (∃ a b, s = a +:+ trim s +:+ b ∧ all_space a = true ∧ all_space b = true)
  ∧ trim (trim s) = trim s.
Proof.
  split; [apply trim_trimmed|]. split.
  - destruct (trim_split s) as (a & b & ? & ? & ? & _). by exists a, b.
  - apply trim_fixed, trim_trimmed.
Qed.

(** X2. [trim] returns the empty text exactly for the texts made of
    white space only, the empty one included. *)
Theorem trim_empty_iff s : trim s = EmptyString ↔ all_space s = true.
Proof.
  split; [|apply trim_all_space].
  intros Hs. destruct (trim_split s) as (a & b & Heq & Ha & Hb & _).
  rewrite Hs, append_nil_l in Heq. by rewrite Heq, all_space_append, Ha, Hb.
Qed.

(** ** normalizeCourseId *)

Section normalize_more.
Implicit Types (s out : string) (ch : ascii).

Lemma kept_characters ch :
  kept ch = true →
  isspace ch = false ∧ ch ≠ "-"%char ∧ ch ≠ "_"%char ∧ ch ≠ ","%char
  ∧ islower ch = false.
Proof. destruct ch as [[] [] [] [] [] [] [] []]; by vm_compute. Qed.

Lemma toupper_dropped ch :
  dropped (toupper ch) = dropped ch ∧ toupper (toupper ch) = toupper ch.
Proof. destruct ch as [[] [] [] [] [] [] [] []]; by vm_compute. Qed.

Lemma normalize_loop_out s out :
  normalize_loop s out = out +:+ normalize_loop s EmptyString.
Proof.
  revert out. induction s as [|ch s IH]; intros out; simpl.
  - by rewrite append_nil_r.
  - destruct (dropped ch); [apply IH|].
    rewrite IH, (IH (push_back _ _)). unfold push_back.
    by rewrite append_nil_l, append_assoc.
Qed.

Lemma normalize_loop_append s t out :
  normalize_loop (s +:+ t) out = normalize_loop t (normalize_loop s out).
Proof.
  revert out. induction s as [|ch s IH]; intros out; [done|].
  rewrite append_cons. simpl. by destruct (dropped ch).
Qed.

Lemma normalizeCourseId_app s t :
  normalizeCourseId (s +:+ t) = normalizeCourseId s +:+ normalizeCourseId t.
Proof.
  rewrite !normalizeCourseId_loop, normalize_loop_append.
  apply normalize_loop_out.
Qed.

Lemma normalizeCourseId_dropped s :
  string_forall dropped s = true → normalizeCourseId s = EmptyString.
Proof.
  rewrite normalizeCourseId_loop. induction s as [|ch s IH]; [done|].
  simpl. intros [Hch Hs]%andb_prop. rewrite Hch. by apply IH.
Qed.

Lemma normalizeCourseId_empty_dropped s :
  normalizeCourseId s = EmptyString → string_forall dropped s = true.
Proof.
  rewrite normalizeCourseId_loop. induction s as [|ch s IH]; [done|].
  simpl. destruct (dropped ch); [done|].
  rewrite normalize_loop_out. unfold push_back. by rewrite append_nil_l.
Qed.

Lemma normalizeCourseId_toupper s :
  normalizeCourseId (string_map toupper s) = normalizeCourseId s.
Proof.
  rewrite !normalizeCourseId_loop. generalize EmptyString as out.
  induction s as [|ch s IH]; intros out; [done|]. simpl.
  destruct (toupper_dropped ch) as [-> ->]. by destruct (dropped ch).
Qed.

End normalize_more.

(** X3. No character of a normalised identifier is white space, a
    hyphen, an underscore, a comma or a lower-case letter. *)
Theorem normalizeCourseId_characters s i ch :
  String.get i (normalizeCourseId s) = Some ch →
  isspace ch = false ∧ ch ≠ "-"%char ∧ ch ≠ "_"%char ∧ ch ≠ ","%char
  ∧ islower ch = false.
Proof.
  intros Hget. apply kept_characters.
  exact (string_forall_get _ _ _ _ (normalizeCourseId_kept s) Hget).
Qed.

Lemma normalizeCourseId_characters_witness :
  isspace "C" = false ∧ "C"%char ≠ "-"%char ∧ "C"%char ≠ "_"%char
  ∧ "C"%char ≠ ","%char ∧ islower "C" = false.
Proof.
  apply (normalizeCourseId_characters " cs-200" 0 "C"). reflexivity.
Defined.

(** X4. Normalising a text made of two parts gives the normalised parts
    one after the other. *)
Theorem normalizeCourseId_append s t :
  normalizeCourseId (s +:+ t) = normalizeCourseId s +:+ normalizeCourseId t.
Proof. apply normalizeCourseId_app. Qed.

(** X5. The normalised identifier is the empty text exactly when every
    character is white space, a hyphen, an underscore or a comma; such
    characters may be put anywhere in an identifier, and letters may be
    written in upper case, without changing what it normalises to. *)
Theorem normalizeCourseId_insensitive :
  (∀ s, normalizeCourseId s = EmptyString ↔ string_forall dropped s = true)
  ∧ (∀ a d b, string_forall dropped d = true →
       normalizeCourseId (a +:+ d +:+ b) = normalizeCourseId (a +:+ b))
  ∧ (∀ s, normalizeCourseId (string_map toupper s) = normalizeCourseId s).
Proof.
  split; [|split].
  - intros s. split; [apply normalizeCourseId_empty_dropped|apply normalizeCourseId_dropped].
  - intros a d b Hd. rewrite !normalizeCourseId_app.
    by rewrite (normalizeCourseId_dropped d Hd), append_nil_l.
  - apply normalizeCourseId_toupper.
Qed.

Lemma normalizeCourseId_insensitive_witness :
  normalizeCourseId ("cs" +:+ " -_" +:+ "200") = normalizeCourseId ("cs" +:+ "200").
Proof.
  apply (proj1 (proj2 normalizeCourseId_insensitive) "cs" " -_" "200").
  reflexivity.
Defined.

(** ** splitCSV *)

Section splitCSV_more.
Implicit Types (line s cur : string) (out : list string) (ch : ascii).

Lemma splitCSV_loop_trimmed n : ∀ line out cur q,
  String.length line ≤ n →
  Forall trimmed out → Forall trimmed (splitCSV_loop line out cur q).
Proof.
  assert (∀ out cur, Forall trimmed out → Forall trimmed (out ++ [trim cur])) as Hend.
  { intros out cur Hout. apply Forall_app. split; [done|].
    apply Forall_singleton, trim_trimmed. }
  induction n as [|n IH]; intros line out cur q Hn Hout.
  { destruct line; [|simpl in Hn; lia]. by apply Hend. }
  destruct line as [|ch rest]; [by apply Hend|].
  simpl in Hn. simpl.
  destruct (bool_decide (ch = dquote)).
  - destruct q.
    + destruct rest as [|ch' rest']; [apply IH; [simpl; lia|done]|].
      destruct (bool_decide (ch' = dquote)); apply IH; simpl in *; (lia || done).
    + apply IH; [lia|done].
  - destruct (bool_decide (ch = comma) && negb q); apply IH; auto with lia.
Qed.

Lemma splitCSV_loop_open s out cur :
  splitCSV_loop (escape_quotes s) out cur true = out ++ [trim (cur +:+ s)].
Proof.
  revert cur. induction s as [|ch s IH]; intros cur.
  - simpl. by rewrite append_nil_r.
  - simpl escape_quotes. unfold is_dquote.
    destruct (bool_decide (ch = dquote)) eqn:Hch.
    + apply bool_decide_eq_true in Hch as ->.
      simpl. by rewrite IH, push_back_append.
    + simpl. rewrite Hch, andb_false_r. by rewrite IH, push_back_append.
Qed.

End splitCSV_more.

(** X6. Every field that [splitCSV] returns is trimmed: it neither
    begins nor ends with white space, and [trim] leaves it unchanged. *)
Theorem splitCSV_fields_trimmed line f :
  f ∈ splitCSV line → trimmed f ∧ trim f = f.
Proof.
  intros Hf.
  assert (trimmed f) as Ht.
  { eapply Forall_forall; [|exact Hf].
    by apply (splitCSV_loop_trimmed (String.length line)). }
  split; [done|by apply trim_fixed].
Qed.

Lemma splitCSV_fields_trimmed_witness :
  trimmed "b c" ∧ trim "b c" = "b c".
Proof.
  apply (splitCSV_fields_trimmed " a , b c ,d" "b c").
  vm_compute. apply list_elem_of_further, list_elem_of_here.
Defined.

(** X7. A quote character that opens the line and is never closed takes
    the whole rest of the line as one field: the commas after it do not
    split, and doubled quote characters give one each. *)
Theorem splitCSV_unterminated_quote s :
  splitCSV (String dquote (escape_quotes s)) = [trim s].
Proof.
  unfold splitCSV. simpl.
  destruct (escape_quotes s) as [|c r] eqn:He.
  - destruct s as [|ch s]; [done|]. simpl in He. by destruct (is_dquote ch).
  - rewrite <- He. destruct (escape_quotes s) eqn:He'; [done|].
    rewrite <- He'. by rewrite splitCSV_loop_open, append_nil_l.
Qed.

(** ** loadCoursesFromFile *)

Section load_more.
Implicit Types (line : string) (lines : list string) (t : CourseTable)
  (n : nat) (c : Course).

Lemma concat_nil_cons x (l : list string) :
  String.concat EmptyString (x :: l) = x +:+ String.concat EmptyString l.
Proof. destruct l; simpl; [by rewrite append_nil_r|done]. Qed.

Lemma warnings_malformed lines n :
  warnings lines n =
    String.concat EmptyString (malformed_warning <$> malformed_numbers lines n).
Proof.
  revert n. induction lines as [|line lines IH]; intros n; [done|].
  rewrite warnings_cons, IH. unfold line_cerr. simpl.
  destruct (negb (empty (trim line)) && (length (splitCSV (trim line)) <? 2)).
  - by rewrite fmap_cons, concat_nil_cons.
  - by rewrite append_nil_l.
Qed.

Lemma malformed_numbers_spec lines n m :
  m ∈ malformed_numbers lines n ↔
    ∃ line, n < m ∧ lines !! (m - S n) = Some line
            ∧ trim line ≠ EmptyString ∧ length (splitCSV (trim line)) < 2.
Proof.
  revert n. induction lines as [|line lines IH]; intros n; simpl.
  { split; [by intros ?%elem_of_nil|]. by intros (? & _ & ? & _). }
  assert (negb (empty (trim line)) && (length (splitCSV (trim line)) <? 2) = true
          ↔ trim line ≠ EmptyString ∧ length (splitCSV (trim line)) < 2) as Hm.
  { rewrite andb_true_iff, negb_true_iff, Nat.ltb_lt.
    clear. destruct (trim line); simpl; intuition congruence. }
  assert (m ∈ malformed_numbers lines (S n) ↔
          ∃ line', n < m ∧ (line :: lines) !! (m - S n) = Some line'
                   ∧ m ≠ S n
                   ∧ trim line' ≠ EmptyString ∧ length (splitCSV (trim line')) < 2)
    as Hrest.
  { rewrite IH. split.
    - intros (l & Hlt & Hl & Hb). exists l. split; [lia|]. split; [|split; [lia|done]].
      replace (m - S n) with (S (m - S (S n))) by lia. done.
    - intros (l & Hlt & Hl & Hne & Hb). exists l. split; [lia|]. split; [|done].
      replace (m - S n) with (S (m - S (S n))) in Hl by lia. done. }
  destruct (negb (empty (trim line)) && (length (splitCSV (trim line)) <? 2)) eqn:E.
  - rewrite elem_of_cons, Hrest. split.
    + intros [->|(l & ? & ? & ? & ?)].
      * exists line. split; [lia|]. rewrite Nat.sub_diag. split; [done|].
        by apply Hm.
      * by exists l.
    + intros (l & Hlt & Hl & Hb). destruct (decide (m = S n)) as [->|Hne]; [by left|].
      right. by exists l.
  - rewrite Hrest. split.
    + intros (l & ? & ? & ? & ?). by exists l.
    + intros (l & Hlt & Hl & Hb). exists l. split; [done|]. split; [done|].
      split; [|done]. intros ->. rewrite Nat.sub_diag in Hl. simpl in Hl.
      simplify_eq. apply Hm in Hb. congruence.
Qed.

Lemma malformed_numbers_sorted lines n :
  StronglySorted lt (malformed_numbers lines n)
  ∧ Forall (λ m, n < m) (malformed_numbers lines n).
Proof.
  revert n. induction lines as [|line lines IH]; intros n; simpl.
  { split; constructor. }
  destruct (IH (S n)) as [Hs Hf].
  assert (Forall (λ m, n < m) (malformed_numbers lines (S n))) as Hf'.
  { eapply Forall_impl; [exact Hf|]. simpl. lia. }
  destruct (negb (empty (trim line)) && (length (splitCSV (trim line)) <? 2)).
  - split; constructor; auto.
  - by split.
Qed.

(** Where the entries of the table come from. *)
Lemma line_course_spec line c :
  line_course line = Some c ↔
    trim line ≠ EmptyString ∧ 2 ≤ length (splitCSV (trim line))
    ∧ c = make_course (splitCSV (trim line)) ∧ number c ≠ EmptyString.
Proof.
  unfold line_course. destruct (empty (trim line)) eqn:He.
  { split; [done|]. intros [Hne _]. by destruct (trim line). }
  assert (trim line ≠ EmptyString) as Hne by (intros E; by rewrite E in He).
  destruct (Nat.ltb_spec (length (splitCSV (trim line))) 2) as [Hlt|Hge].
  { split; [done|]. intros (_ & ? & _). lia. }
  destruct (normalizeCourseId (nth 0 (splitCSV (trim line)) EmptyString))
    as [|ch' k] eqn:Hk; simpl; rewrite Hk; simpl.
  - split; [done|]. intros (_ & _ & -> & Hk'). simpl in Hk'. by rewrite Hk in Hk'.
  - split.
    + intros [= <-]. simpl. by rewrite Hk.
    + by intros (_ & _ & -> & _).
Qed.

Lemma foldl_line_table_lookup lines t k c :
  foldl line_table t lines !! k = Some c →
  t !! k = Some c
  ∨ ∃ line, line ∈ lines ∧ line_course line = Some c ∧ number c = k.
Proof.
  revert t. induction lines as [|line lines IH]; intros t Hk; [by left|].
  simpl in Hk. apply IH in Hk as [Hk|(l & Hin & Hl)].
  - unfold line_table in Hk. destruct (line_course line) as [c'|] eqn:Hc; [|by left].
    rewrite lookup_insert in Hk. case_decide; [|by left].
    simplify_eq. right. exists line. split; [by left|done].
  - right. exists l. split; [by right|done].
Qed.

Lemma foldl_line_table_dom lines t line c :
  line ∈ lines → line_course line = Some c →
  is_Some (foldl line_table t lines !! number c).
Proof.
  revert t. induction lines as [|l lines IH]; intros t Hin Hc.
  { by apply elem_of_nil in Hin. }
  simpl. apply elem_of_cons in Hin as [<-|Hin]; [|by apply IH].
  clear IH. assert (is_Some (line_table t line !! number c)) as Hs.
  { unfold line_table. rewrite Hc. rewrite lookup_insert_eq. by eexists. }
  revert Hs. generalize (line_table t line). clear.
  induction lines as [|l lines IH]; intros t Hs; [done|].
  simpl. apply IH. unfold line_table. destruct (line_course l) as [c'|]; [|done].
  rewrite lookup_insert. by case_decide.
Qed.

Lemma prereq_loop_filter (fields acc : list string) :
  prereq_loop fields acc =
    acc ++ filter (λ p, p ≠ EmptyString) (normalizeCourseId <$> fields).
Proof.
  revert acc. induction fields as [|f fields IH]; intros acc; simpl.
  - by rewrite app_nil_r.
  - rewrite filter_cons.
    destruct (normalizeCourseId f) as [|ch p] eqn:Hf; simpl.
    + apply IH.
    + rewrite IH. by rewrite <- app_assoc.
Qed.

Lemma normalizeCourseId_fixed s :
  normalizeCourseId (normalizeCourseId s) = normalizeCourseId s.
Proof.
  rewrite (normalizeCourseId_loop (normalizeCourseId s)).
  by rewrite normalize_loop_fixed by apply normalizeCourseId_kept.
Qed.

Lemma make_course_normalized (fields : list string) :
  2 ≤ length fields → Forall trimmed fields →
  normalizeCourseId (number (make_course fields)) = number (make_course fields)
  ∧ trimmed (title (make_course fields))
  ∧ Forall (λ p, p ≠ EmptyString ∧ normalizeCourseId p = p)
      (prereqNumbers (make_course fields)).
Proof.
  intros Hlen Hf. simpl. split; [apply normalizeCourseId_fixed|]. split.
  - destruct fields as [|f0 [|f1 fields]]; simpl in *; [lia..|].
    by apply Forall_cons in Hf as [_ [? _]%Forall_cons].
  - rewrite prereq_loop_filter. simpl. apply Forall_forall. intros p Hp.
    apply list_elem_of_filter in Hp as [Hne Hp].
    apply list_elem_of_fmap in Hp as (f & -> & _).
    split; [done|apply normalizeCourseId_fixed].
Qed.

Lemma getlines_all_space text cur :
  all_space text = true → all_space cur = true →
  Forall (λ line, all_space line = true) (getlines text cur).
Proof.
  revert cur. induction text as [|ch text IH]; intros cur Ht Hc; simpl.
  - destruct (empty cur); auto.
  - unfold all_space in Ht. simpl in Ht. apply andb_prop in Ht as [Hch Ht].
    destruct (bool_decide (ch = newline)).
    + constructor; [done|]. by apply IH.
    + apply IH; [done|]. unfold push_back. rewrite all_space_append, Hc.
      unfold all_space. simpl. by rewrite Hch.
Qed.

Lemma foldl_line_table_blank lines t :
  Forall (λ line, all_space line = true) lines →
  foldl line_table t lines = t ∧ ∀ n, malformed_numbers lines n = [].
Proof.
  revert t. induction lines as [|line lines IH]; intros t Hl; [done|].
  apply Forall_cons in Hl as [Hline Hl]. destruct (IH t Hl) as [Ht Hm].
  assert (line_table t line = t) as Hskip.
  { unfold line_table, line_course. by rewrite (trim_all_space _ Hline). }
  split.
  - simpl. by rewrite Hskip.
  - intros n. simpl. rewrite (trim_all_space _ Hline). simpl. apply Hm.
Qed.

End load_more.

(** X8. After a load from a source that opens, [cerr] holds one warning
    per line that is not blank and has fewer than two fields, each with the
    1-based number of its line, in the order of the lines, and nothing
    else. *)
Theorem load_warnings fs filename text state :
  fs filename = Some text →
  let lines := getlines text EmptyString in
  let numbers := malformed_numbers lines 0 in
  to_cerr (loadCoursesFromFile fs filename state).2
    = String.concat EmptyString (malformed_warning <$> numbers)
  ∧ StronglySorted lt numbers
  ∧ ∀ m, m ∈ numbers ↔
      ∃ line, 1 ≤ m ∧ lines !! (m - 1) = Some line
              ∧ trim line ≠ EmptyString ∧ length (splitCSV (trim line)) < 2.
Proof.
  intros Hf. rewrite (loadCoursesFromFile_Some _ _ _ _ Hf). simpl.
  split; [apply warnings_malformed|]. split; [apply malformed_numbers_sorted|].
  intros m. rewrite malformed_numbers_spec. split.
  - intros (line & ? & ? & ?). exists line. split; [lia|done].
  - intros (line & ? & ? & ?). exists line. split; [lia|done].
Qed.

Lemma load_warnings_witness :
  let text := "CS1,A" +:+ endl +:+ "oops" +:+ endl +:+ endl +:+ "-" +:+ endl in
  let lines := getlines text EmptyString in
  let numbers := malformed_numbers lines 0 in
  to_cerr (loadCoursesFromFile (one_file "f" text) "f" initial_state).2
    = String.concat EmptyString (malformed_warning <$> numbers)
  ∧ StronglySorted lt numbers
  ∧ ∀ m, m ∈ numbers ↔
      ∃ line, 1 ≤ m ∧ lines !! (m - 1) = Some line
              ∧ trim line ≠ EmptyString ∧ length (splitCSV (trim line)) < 2.
Proof.
  apply (load_warnings
           (one_file "f" ("CS1,A" +:+ endl +:+ "oops" +:+ endl +:+ endl +:+ "-" +:+ endl))
           "f" ("CS1,A" +:+ endl +:+ "oops" +:+ endl +:+ endl +:+ "-" +:+ endl)
           initial_state).
  reflexivity.
Defined.

(** X9. After a load from a source that opens, every entry of the table
    was built by a line of that source that is not blank, has two fields or
    more and an identifier that does not normalise to the empty text, and
    every such line has its key in the table: nothing of the earlier table
    is left. *)
Theorem load_table_entries fs filename text state :
  fs filename = Some text →
  let lines := getlines text EmptyString in
  let t := courses (loadCoursesFromFile fs filename state).1.2 in
  (∀ k c, t !! k = Some c →
     ∃ line, line ∈ lines ∧ trim line ≠ EmptyString
             ∧ 2 ≤ length (splitCSV (trim line))
             ∧ c = make_course (splitCSV (trim line))
             ∧ k = number c ∧ k ≠ EmptyString)
  ∧ (∀ line, line ∈ lines → trim line ≠ EmptyString →
     2 ≤ length (splitCSV (trim line)) →
     normalizeCourseId (nth 0 (splitCSV (trim line)) EmptyString) ≠ EmptyString →
     is_Some (t !! normalizeCourseId (nth 0 (splitCSV (trim line)) EmptyString))).
Proof.
  intros Hf. rewrite (loadCoursesFromFile_Some _ _ _ _ Hf). simpl. split.
  - intros k c Hk. apply foldl_line_table_lookup in Hk as [Hk|(line & Hin & Hc & <-)].
    { by rewrite lookup_empty in Hk. }
    apply line_course_spec in Hc as (? & ? & ? & ?). by exists line.
  - intros line Hin Hb Hlen Hkey.
    apply (foldl_line_table_dom _ ∅ line (make_course (splitCSV (trim line))));
      [done|]. by apply line_course_spec.
Qed.

Lemma load_table_entries_witness :
  let text := "CS1,A" +:+ endl +:+ "cs 2,B,CS1" +:+ endl in
  let lines := getlines text EmptyString in
  let t := courses (loadCoursesFromFile (one_file "f" text) "f" initial_state).1.2 in
  (∀ k c, t !! k = Some c →
     ∃ line, line ∈ lines ∧ trim line ≠ EmptyString
             ∧ 2 ≤ length (splitCSV (trim line))
             ∧ c = make_course (splitCSV (trim line))
             ∧ k = number c ∧ k ≠ EmptyString)
  ∧ (∀ line, line ∈ lines → trim line ≠ EmptyString →
     2 ≤ length (splitCSV (trim line)) →
     normalizeCourseId (nth 0 (splitCSV (trim line)) EmptyString) ≠ EmptyString →
     is_Some (t !! normalizeCourseId (nth 0 (splitCSV (trim line)) EmptyString))).
Proof.
  apply (load_table_entries
           (one_file "f" ("CS1,A" +:+ endl +:+ "cs 2,B,CS1" +:+ endl))
           "f" ("CS1,A" +:+ endl +:+ "cs 2,B,CS1" +:+ endl) initial_state).
  reflexivity.
Defined.

(** X10. After a successful load, every key of the table is a non-empty
    normalised identifier, every title is trimmed, and every stored
    prerequisite is a non-empty normalised identifier. *)
Theorem load_entries_normalized fs filename state k c :
  (loadCoursesFromFile fs filename state).1.1 = true →
  courses (loadCoursesFromFile fs filename state).1.2 !! k = Some c →
  k ≠ EmptyString ∧ normalizeCourseId k = k
  ∧ trim (title c) = title c
  ∧ Forall (λ p, p ≠ EmptyString ∧ normalizeCourseId p = p) (prereqNumbers c).
Proof.
  intros [text Hf]%loadCoursesFromFile_ok.
  rewrite (loadCoursesFromFile_Some _ _ _ _ Hf). simpl. intros Hk.
  apply foldl_line_table_lookup in Hk as [Hk|(line & Hin & Hc & <-)].
  { by rewrite lookup_empty in Hk. }
  apply line_course_spec in Hc as (Hb & Hlen & -> & Hne).
  destruct (make_course_normalized (splitCSV (trim line)) Hlen) as (Hn & Ht & Hp).
  { apply (splitCSV_loop_trimmed (String.length (trim line))); [done|constructor]. }
  split; [done|]. split; [done|]. split; [by apply trim_fixed|done].
Qed.

Lemma load_entries_normalized_witness :
  "CS2" ≠ EmptyString ∧ normalizeCourseId "CS2" = "CS2"
  ∧ trim "Data, etc." = "Data, etc."
  ∧ Forall (λ p, p ≠ EmptyString ∧ normalizeCourseId p = p) ["CS1"; "MATH1"].
Proof.
  apply (load_entries_normalized
           (one_file "f" ("cs 2 , " +:+ quoted "Data, etc." +:+ " ,cs-1, ,math_1" +:+ endl))
           "f" initial_state "CS2"
           (mkCourse "CS2" "Data, etc." ["CS1"; "MATH1"]));
    reflexivity.
Defined.

(** X11. A source that holds white space only, the empty source included,
    loads: the table and the sorted keys are empty, the flag is set, no
    warning is written, and the count reported is 0. *)
Theorem load_blank_source fs filename text state :
  fs filename = Some text → all_space text = true →
  loadCoursesFromFile fs filename state =
    (true,
     {| loaded := true; courses := ∅; sortedKeys := [] |},
     {| to_cout := loaded_message 0 filename; to_cerr := EmptyString |}).
Proof.
  intros Hf Hsp. rewrite (loadCoursesFromFile_Some _ _ _ _ Hf). simpl.
  destruct (foldl_line_table_blank (getlines text EmptyString) ∅) as [Ht Hm].
  { by apply getlines_all_space. }
  by rewrite Ht, warnings_malformed, Hm.
Qed.

Lemma load_blank_source_witness :
  loadCoursesFromFile (one_file "f" (" " +:+ endl +:+ endl +:+ "  ")) "f" initial_state =
    (true,
     {| loaded := true; courses := ∅; sortedKeys := [] |},
     {| to_cout := loaded_message 0 "f"; to_cerr := EmptyString |}).
Proof.
  apply (load_blank_source (one_file "f" (" " +:+ endl +:+ endl +:+ "  "))
           "f" (" " +:+ endl +:+ endl +:+ "  ") initial_state); reflexivity.
Defined.

(** ** splitCSV after trim *)

Section splitCSV_trim.
Implicit Types (line s cur : string) (out : list string) (ch : ascii).

Lemma isspace_plain ch :
  isspace ch = true → bool_decide (ch = dquote) = false
                      ∧ bool_decide (ch = comma) = false.
Proof. destruct ch as [[] [] [] [] [] [] [] []]; by vm_compute. Qed.

Lemma isspace_dropped ch : isspace ch = true → dropped ch = true.
Proof. unfold dropped. by intros ->. Qed.

Lemma trim_append_space_l a s : all_space a = true → trim (a +:+ s) = trim s.
Proof.
  intros Ha. destruct (trim_split s) as (a' & b' & Hs & Ha' & Hb' & Ht).
  rewrite Hs at 1. rewrite <- append_assoc.
  apply trim_spec; [|done..]. by rewrite all_space_append, Ha, Ha'.
Qed.

Lemma trim_append_space_r s b : all_space b = true → trim (s +:+ b) = trim s.
Proof.
  intros Hb. destruct (trim_split s) as (a' & b' & Hs & Ha' & Hb' & Ht).
  rewrite Hs at 1. rewrite !append_assoc.
  apply trim_spec; [done| |done]. by rewrite all_space_append, Hb', Hb.
Qed.

(** The loop depends on [cur] only through what [trim] will make of it. *)
Lemma splitCSV_loop_same_trim n : ∀ line out cur cur' q,
  String.length line ≤ n →
  (∀ x, trim (cur +:+ x) = trim (cur' +:+ x)) →
  splitCSV_loop line out cur q = splitCSV_loop line out cur' q.
Proof.
  assert (∀ cur cur' c, (∀ x, trim (cur +:+ x) = trim (cur' +:+ x)) →
            ∀ x, trim (push_back cur c +:+ x) = trim (push_back cur' c +:+ x))
    as Hpush.
  { intros cur cur' c H x. rewrite !push_back_append. apply H. }
  assert (∀ cur cur', (∀ x, trim (cur +:+ x) = trim (cur' +:+ x)) →
            trim cur = trim cur') as Hend.
  { intros cur cur' H. specialize (H EmptyString). by rewrite !append_nil_r in H. }
  induction n as [|n IH]; intros line out cur cur' q Hn H.
  { destruct line; [|simpl in Hn; lia]. simpl. by rewrite (Hend _ _ H). }
  destruct line as [|ch rest]; [simpl; by rewrite (Hend _ _ H)|].
  simpl in Hn. simpl.
  destruct (bool_decide (ch = dquote)).
  - destruct q.
    + destruct rest as [|ch' rest']; [apply IH; [simpl; lia|done]|].
      destruct (bool_decide (ch' = dquote)); apply IH; simpl in *; auto with lia.
    + apply IH; [lia|done].
  - destruct (bool_decide (ch = comma) && negb q).
    + rewrite (Hend _ _ H). apply IH; [lia|done].
    + apply IH; [lia|auto].
Qed.

(** White space is accumulated like any plain character. *)
Lemma splitCSV_loop_space a line out cur q :
  all_space a = true →
  splitCSV_loop (a +:+ line) out cur q = splitCSV_loop line out (cur +:+ a) q.
Proof.
  revert cur. induction a as [|ch a IH]; intros cur Ha.
  - by rewrite append_nil_r.
  - unfold all_space in Ha. simpl in Ha. apply andb_prop in Ha as [Hch Ha].
    destruct (isspace_plain ch Hch) as [Hq Hc].
    rewrite append_cons. simpl. rewrite Hq, Hc. simpl.
    rewrite (IH _ Ha). by rewrite push_back_append.
Qed.

Lemma splitCSV_loop_trailing n : ∀ line out cur q b,
  String.length line ≤ n → all_space b = true →
  splitCSV_loop (line +:+ b) out cur q = splitCSV_loop line out cur q.
Proof.
  assert (∀ out cur q b, all_space b = true →
            splitCSV_loop b out cur q = splitCSV_loop EmptyString out cur q)
    as Hnil.
  { intros out cur q b Hb. rewrite <- (append_nil_r b) at 1.
    rewrite splitCSV_loop_space by done. simpl.
    by rewrite trim_append_space_r. }
  induction n as [|n IH]; intros line out cur q b Hn Hb.
  { destruct line; [|simpl in Hn; lia]. by apply Hnil. }
  destruct line as [|ch rest]; [by apply Hnil|].
  simpl in Hn. rewrite append_cons. simpl.
  destruct (bool_decide (ch = dquote)).
  - destruct q.
    + destruct rest as [|ch' rest'].
      * rewrite append_nil_l. destruct b as [|c b']; [done|].
        unfold all_space in Hb. simpl in Hb. pose proof Hb as Hb'.
        apply andb_prop in Hb' as [Hc _].
        destruct (isspace_plain c Hc) as [-> _]. by apply Hnil.
      * rewrite append_cons.
        destruct (bool_decide (ch' = dquote)).
        -- apply IH; [simpl in Hn; lia|done].
        -- rewrite <- append_cons. apply IH; [simpl in *; lia|done].
    + apply IH; [lia|done].
  - destruct (bool_decide (ch = comma) && negb q); apply IH; auto with lia.
Qed.

Lemma splitCSV_trim line : splitCSV (trim line) = splitCSV line.
Proof.
  destruct (trim_split line) as (a & b & Hl & Ha & Hb & _).
  unfold splitCSV. rewrite Hl at 2.
  rewrite splitCSV_loop_space, append_nil_l by done.
  rewrite (splitCSV_loop_same_trim (String.length (trim line +:+ b))
             _ _ a EmptyString) by (done || (intros x; by apply trim_append_space_l)).
  by rewrite (splitCSV_loop_trailing (String.length (trim line))).
Qed.

Lemma normalizeCourseId_trim s : normalizeCourseId (trim s) = normalizeCourseId s.
Proof.
  destruct (trim_split s) as (a & b & Hs & Ha & Hb & _).
  assert (∀ w, all_space w = true → normalizeCourseId w = EmptyString) as Hw.
  { intros w Hall. apply normalizeCourseId_dropped.
    unfold all_space in Hall. induction w as [|c w IH]; [done|]. simpl in *.
    apply andb_prop in Hall as [Hc Hall]. by rewrite (isspace_dropped c Hc), IH. }
  rewrite Hs at 2. rewrite !normalizeCourseId_app, (Hw a Ha), (Hw b Hb).
  by rewrite append_nil_l, append_nil_r.
Qed.

End splitCSV_trim.

(** X12. Trimming a line before splitting it does not change the fields:
    the white space before the first field and after the last one is dropped
    by the trimming of the fields anyway, inside quotes or not. *)
Theorem splitCSV_of_trim line : splitCSV (trim line) = splitCSV line.
Proof. apply splitCSV_trim. Qed.

(** ** One record through the loader *)

Section record.
Implicit Types (f : Field) (fields : list Field) (t : CourseTable).

Lemma line_course_written f0 f1 fields :
  forallb field_ok (f0 :: f1 :: fields) = true →
  normalizeCourseId (field_text f0) ≠ EmptyString →
  line_course (write_line (f0 :: f1 :: fields)) =
    Some {| number := normalizeCourseId (field_text f0);
            title := trim (field_text f1);
            prereqNumbers :=
              filter (λ p, p ≠ EmptyString)
                ((λ f, normalizeCourseId (field_text f)) <$> fields) |}.
Proof.
  intros Hok Hkey.
  pose proof (splitCSV_loop_line (f1 :: fields) f0 [] Hok) as Hsplit.
  rewrite app_nil_l in Hsplit. fold (splitCSV (write_line (f0 :: f1 :: fields))) in Hsplit.
  rewrite <- splitCSV_trim in Hsplit.
  apply line_course_spec. rewrite Hsplit. split; [|split; [|split]].
  - intros E. rewrite E in Hsplit. by vm_compute in Hsplit.
  - simpl. lia.
  - unfold make_course. simpl. rewrite normalizeCourseId_trim. f_equal.
    rewrite drop_0, prereq_loop_filter, app_nil_l.
    change (list_fmap Field string ?g fields) with (g <$> fields).
    rewrite <- list_fmap_compose. f_equal.
    apply list_fmap_ext. intros _ f _. simpl. symmetry. apply normalizeCourseId_trim.
  - done.
Qed.

End record.

(** X13. One pass of the loading loop over a line written as an
    identifier, a title and prerequisites, each plain or quoted, puts into
    the table, under the normalised identifier, the course whose title is
    the trimmed title and whose prerequisites are the normalised
    prerequisites that are not empty, in the order written; it writes no
    warning. *)
Theorem load_loop_written_record f0 f1 fields lines n t e :
  forallb field_ok (f0 :: f1 :: fields) = true →
  normalizeCourseId (field_text f0) ≠ EmptyString →
  load_loop (write_line (f0 :: f1 :: fields) :: lines) n t e =
    load_loop lines (S n)
      (<[normalizeCourseId (field_text f0) :=
           {| number := normalizeCourseId (field_text f0);
              title := trim (field_text f1);
              prereqNumbers :=
                filter (λ p, p ≠ EmptyString)
                  ((λ f, normalizeCourseId (field_text f)) <$> fields) |}]> t)
      e.
Proof.
  intros Hok Hkey. rewrite load_loop_cons.
  pose proof (line_course_written f0 f1 fields Hok Hkey) as Hc.
  unfold line_table. rewrite Hc. simpl. f_equal.
  apply line_course_spec in Hc as (Hb & Hlen & _ & _).
  unfold line_cerr.
  destruct (Nat.ltb_spec (length (splitCSV (trim (write_line (f0 :: f1 :: fields))))) 2);
    [lia|]. by rewrite andb_false_r, append_nil_r.
Qed.

Lemma load_loop_written_record_witness :
  load_loop
    (write_line [Plain " cs-300 "; Quoted "Algorithms, I"; Plain "cs 200"; Plain " ";
                 Quoted "math_1"] :: [])
    0 ∅ EmptyString =
  ({[ "CS300" := mkCourse "CS300" "Algorithms, I" ["CS200"; "MATH1"] ]}, EmptyString).
Proof.
  apply (load_loop_written_record
           (Plain " cs-300 ") (Quoted "Algorithms, I")
           [Plain "cs 200"; Plain " "; Quoted "math_1"] [] 0 ∅ EmptyString).
  - reflexivity.
  - vm_compute. discriminate.
Defined.

(** ** The queries after a load *)

Section queries_more.
Implicit Types (t : CourseTable) (state : ProgramState).

Lemma list_loop_present t ids cout :
  Forall (λ k, is_Some (t !! k)) ids →
  ∃ cs, Forall2 (λ k c, t !! k = Some c) ids cs
        ∧ list_loop t ids cout =
            Some (cout +:+ String.concat EmptyString
                             (zip_with (λ k c, k +:+ ", " +:+ title c +:+ endl) ids cs)).
Proof.
  revert cout. induction ids as [|k ids IH]; intros cout Hall.
  - exists []. split; [constructor|]. simpl. by rewrite append_nil_r.
  - apply Forall_cons in Hall as [[c Hc] Hall].
    destruct (IH (cout +:+ k +:+ ", " +:+ title c +:+ endl) Hall) as (cs & Hcs & Hout).
    exists (c :: cs). split; [by constructor|].
    simpl list_loop. rewrite Hc, Hout. simpl zip_with.
    by rewrite concat_nil_cons, ?append_assoc.
Qed.

Lemma zip_with_keyed t ids cs :
  keyed_by_number t →
  Forall2 (λ k c, t !! k = Some c) ids cs →
  zip_with (λ k c, k +:+ ", " +:+ title c +:+ endl) ids cs = course_line <$> cs
  ∧ number <$> cs = ids.
Proof.
  intros Hkey. induction 1 as [|k c ids cs Hc _ [IH1 IH2]]; [done|].
  rewrite !fmap_cons. cbn [zip_with]. rewrite IH1, IH2.
  unfold course_line. by rewrite (Hkey _ _ Hc).
Qed.

Lemma load_keyed fs filename text state :
  fs filename = Some text →
  keyed_by_number (courses (loadCoursesFromFile fs filename state).1.2).
Proof.
  intros Hf. rewrite (loadCoursesFromFile_Some _ _ _ _ Hf). simpl.
  apply foldl_line_table_keyed. intros k c. by rewrite lookup_empty.
Qed.

Lemma prereq_print_loop_ids t prereqs cout :
  keyed_by_number t →
  prereq_print_loop t prereqs cout =
    cout +:+ String.concat ", "
      ((λ pid, pid +:+ " (" +:+
               match t !! pid with Some p => title p | None => "missing" end
               +:+ ")") <$> prereqs).
Proof.
  intros Hkey. rewrite prereq_print_loop_concat, render_resolve. do 2 f_equal.
  apply list_fmap_ext. intros _ pid _. simpl.
  destruct (t !! pid) as [p|] eqn:Hp; [|done]. by rewrite (Hkey _ _ Hp).
Qed.

End queries_more.

(** X14. After a successful load [printCourseList] does not throw: it
    writes one line, number then title, for each course of the table, in
    the strictly ascending order of the numbers. *)
Theorem printCourseList_after_load fs filename state :
  (loadCoursesFromFile fs filename state).1.1 = true →
  let state' := (loadCoursesFromFile fs filename state).1.2 in
  ∃ cs, Forall2 (λ k c, courses state' !! k = Some c) (sortedKeys state') cs
        ∧ printCourseList state' =
            Some (String.concat EmptyString (course_line <$> cs))
        ∧ StronglySorted string_lt (number <$> cs)
        ∧ length cs = size (courses state').
Proof.
  intros [text Hf]%loadCoursesFromFile_ok. intros state'.
  pose proof (load_keyed fs filename text state Hf) as Hkey. fold state' in Hkey.
  assert (loaded state' = true ∧ sortedKeys state' = sort (table_keys (courses state')))
    as [Hl Hs].
  { unfold state'. by rewrite (loadCoursesFromFile_Some _ _ _ _ Hf). }
  destruct (sort_table_keys (courses state')) as (Hsorted & _ & Hin & Hlen).
  rewrite <- Hs in Hsorted, Hin, Hlen.
  destruct (list_loop_present (courses state') (sortedKeys state') EmptyString)
    as (cs & Hcs & Hout).
  { apply Forall_forall. intros k Hk. by apply Hin. }
  destruct (zip_with_keyed _ _ _ Hkey Hcs) as [Hzip Hnum].
  exists cs. split; [done|]. split; [|split].
  - unfold printCourseList. rewrite Hl. simpl. by rewrite Hout, Hzip, append_nil_l.
  - by rewrite Hnum.
  - rewrite <- Hlen. symmetry. by eapply Forall2_length.
Qed.

Lemma printCourseList_after_load_witness :
  let state' :=
    (loadCoursesFromFile
       (one_file "f" ("MATH201,Discrete" +:+ endl +:+ "cs-200,Data" +:+ endl))
       "f" initial_state).1.2 in
  ∃ cs, Forall2 (λ k c, courses state' !! k = Some c) (sortedKeys state') cs
        ∧ printCourseList state' =
            Some (String.concat EmptyString (course_line <$> cs))
        ∧ StronglySorted string_lt (number <$> cs)
        ∧ length cs = size (courses state').
Proof.
  apply (printCourseList_after_load
           (one_file "f" ("MATH201,Discrete" +:+ endl +:+ "cs-200,Data" +:+ endl))
           "f" initial_state); reflexivity.
Defined.

(** X15. After a load, a course that a line of the source defines is
    found by every query that normalises to the same key as the identifier
    written on that line, however either is spelled; the course shown has
    that key as its number. *)
Theorem query_finds_loaded_course fs filename text state line q :
  fs filename = Some text →
  line ∈ getlines text EmptyString →
  trim line ≠ EmptyString →
  2 ≤ length (splitCSV (trim line)) →
  normalizeCourseId (nth 0 (splitCSV (trim line)) EmptyString) ≠ EmptyString →
  normalizeCourseId q = normalizeCourseId (nth 0 (splitCSV (trim line)) EmptyString) →
  let state' := (loadCoursesFromFile fs filename state).1.2 in
  ∃ c, courses state' !! normalizeCourseId q = Some c
       ∧ number c = normalizeCourseId q
       ∧ printSingleCourse state' q =
           course_prompt +:+
           render {| described := (number c, title c);
                     prerequisites :=
                       match prereqNumbers c with
                       | [] => NoPrerequisites
                       | pid :: rest =>
                           Resolved (resolve (courses state') <$> pid :: rest)
                       end |}.
Proof.
  intros Hf Hin Hb Hlen Hkey Hq state'.
  pose proof (load_keyed fs filename text state Hf) as Hkeyed. fold state' in Hkeyed.
  assert (loaded state' = true
          ∧ courses state' = foldl line_table ∅ (getlines text EmptyString))
    as [Hl Ht].
  { unfold state'. by rewrite (loadCoursesFromFile_Some _ _ _ _ Hf). }
  destruct (foldl_line_table_dom (getlines text EmptyString) ∅ line
              (make_course (splitCSV (trim line))) Hin) as [c Hc].
  { by apply line_course_spec. }
  simpl in Hc. rewrite <- Ht, <- Hq in Hc.
  exists c. split; [done|]. split; [by apply Hkeyed|].
  apply printSingleCourse_found; [done| |done]. by rewrite Hq.
Qed.

Lemma query_finds_loaded_course_witness :
  let state' :=
    (loadCoursesFromFile
       (one_file "f" ("cs-200 , Data" +:+ endl)) "f" initial_state).1.2 in
  ∃ c, courses state' !! normalizeCourseId "C s_200" = Some c
       ∧ number c = normalizeCourseId "C s_200"
       ∧ printSingleCourse state' "C s_200" =
           course_prompt +:+
           render {| described := (number c, title c);
                     prerequisites :=
                       match prereqNumbers c with
                       | [] => NoPrerequisites
                       | pid :: rest =>
                           Resolved (resolve (courses state') <$> pid :: rest)
                       end |}.
Proof.
  apply (query_finds_loaded_course
           (one_file "f" ("cs-200 , Data" +:+ endl)) "f"
           ("cs-200 , Data" +:+ endl) initial_state "cs-200 , Data" "C s_200");
    try reflexivity; try (vm_compute; lia); try (vm_compute; discriminate).
  vm_compute. apply list_elem_of_here.
Defined.

(** X16. After a successful load, the prerequisites that
    [printSingleCourse] writes are the stored identifiers themselves, in
    the stored order, each followed by the title of the course with that
    key or by "missing", and separated by a comma and a space. *)
Theorem prereq_print_loop_after_load fs filename state prereqs cout :
  (loadCoursesFromFile fs filename state).1.1 = true →
  let t := courses (loadCoursesFromFile fs filename state).1.2 in
  prereq_print_loop t prereqs cout =
    cout +:+ String.concat ", "
      ((λ pid, pid +:+ " (" +:+
               match t !! pid with Some p => title p | None => "missing" end
               +:+ ")") <$> prereqs).
Proof.
  intros [text Hf]%loadCoursesFromFile_ok. intros t.
  apply prereq_print_loop_ids. by eapply load_keyed.
Qed.

Lemma prereq_print_loop_after_load_witness :
  let t :=
    courses (loadCoursesFromFile
               (one_file "f" ("CS200,Data" +:+ endl)) "f" initial_state).1.2 in
  prereq_print_loop t ["CS200"; "CS999"] "Prerequisites: " =
    "Prerequisites: " +:+ String.concat ", "
      ((λ pid, pid +:+ " (" +:+
               match t !! pid with Some p => title p | None => "missing" end
               +:+ ")") <$> ["CS200"; "CS999"]).
Proof.
  apply (prereq_print_loop_after_load
           (one_file "f" ("CS200,Data" +:+ endl)) "f" initial_state
           ["CS200"; "CS999"] "Prerequisites: ").
  reflexivity.
Defined.

(** ** main *)

Section main.
Implicit Types (state : ProgramState) (cin : list string) (out : Output)
  (files : nat → FileSystem) (s t : string).

Lemma keys_present_initial : keys_present initial_state.
Proof. constructor. Qed.

Lemma keys_present_load fs filename state :
  keys_present state →
  keys_present (loadCoursesFromFile fs filename state).1.2.
Proof.
  intros Hs. destruct (fs filename) as [text|] eqn:Hf.
  - rewrite (loadCoursesFromFile_Some _ _ _ _ Hf). unfold keys_present. simpl.
    apply Forall_forall. intros k Hk. by apply sort_table_keys.
  - unfold loadCoursesFromFile. by rewrite Hf.
Qed.

Lemma printCourseList_present state :
  keys_present state → is_Some (printCourseList state).
Proof.
  intros Hs. unfold printCourseList. destruct (loaded state); simpl; [|done].
  destruct (list_loop_present _ _ EmptyString Hs) as (cs & _ & ->). done.
Qed.

Lemma main_loop_returns n : ∀ files pass cin state out,
  length cin ≤ n → keys_present state →
  (main_loop files pass cin state out).2 = Returned 0.
Proof.
  induction n as [|n IH]; intros files pass cin state out Hn Hs.
  { destruct cin; [done|simpl in Hn; lia]. }
  destruct cin as [|line cin]; [done|]. simpl in Hn. simpl.
  destruct (read_choice line =? 1)%Z.
  { destruct cin as [|fname cin']; [apply IH; [simpl; lia|done]|].
    simpl in Hn. destruct (negb (empty (trim fname))); [|apply IH; [lia|done]].
    pose proof (keys_present_load (files pass) (trim fname) state Hs) as Hs'.
    destruct (loadCoursesFromFile (files pass) (trim fname) state) as [[ok state'] w].
    apply IH; [lia|done]. }
  destruct (read_choice line =? 2)%Z.
  { destruct (printCourseList_present state Hs) as [text ->]. apply IH; [lia|done]. }
  destruct (read_choice line =? 3)%Z.
  { destruct (loaded state); [|apply IH; [lia|done]].
    destruct cin as [|query cin']; apply IH; simpl in *; (lia || done). }
  destruct (read_choice line =? 9)%Z; [done|]. apply IH; [lia|done].
Qed.

(** *** stoi *)

Lemma digit_not_space ch : isspace ch = true → digit_value ch = None.
Proof. destruct ch as [[] [] [] [] [] [] [] []]; by vm_compute. Qed.

Lemma space_not_sign ch :
  isspace ch = true →
  bool_decide (ch = "-"%char) = false ∧ bool_decide (ch = "+"%char) = false.
Proof. destruct ch as [[] [] [] [] [] [] [] []]; by vm_compute. Qed.

Lemma strtol_digits_space s b acc :
  all_space b = true → strtol_digits (s +:+ b) acc = strtol_digits s acc.
Proof.
  intros Hb. revert acc. induction s as [|ch s IH]; intros acc.
  - rewrite append_nil_l. destruct b as [|c b]; [done|].
    unfold all_space in Hb. simpl in Hb. apply andb_prop in Hb as [Hc _].
    simpl. by rewrite (digit_not_space c Hc).
  - rewrite append_cons. simpl. by destruct (digit_value ch).
Qed.

Lemma drop_spaces_fixed s :
  match s with EmptyString => True | String ch _ => isspace ch = false end →
  drop_spaces s = s.
Proof. destruct s as [|ch s]; [done|]. simpl. by intros ->. Qed.

Lemma stoi_digits_append (F : Z → option Z) d b :
  all_space b = true →
  match d +:+ b with
  | String c _ =>
      match digit_value c with
      | Some _ => F (strtol_digits (d +:+ b) 0)
      | None => None
      end
  | EmptyString => None
  end =
  match d with
  | String c _ =>
      match digit_value c with
      | Some _ => F (strtol_digits d 0)
      | None => None
      end
  | EmptyString => None
  end.
Proof.
  intros Hb. destruct d as [|c d].
  - rewrite append_nil_l. destruct b as [|c b']; [done|].
    unfold all_space in Hb. simpl in Hb. pose proof Hb as Hb'.
    apply andb_prop in Hb' as [Hc _]. by rewrite (digit_not_space c Hc).
  - rewrite append_cons. destruct (digit_value c); [|done].
    rewrite <- append_cons. by rewrite strtol_digits_space.
Qed.

Lemma stoi_head_append s b :
  match s with EmptyString => True | String ch _ => isspace ch = false end →
  all_space b = true →
  stoi (s +:+ b) = stoi s.
Proof.
  intros Hs Hb. unfold stoi.
  destruct s as [|ch r].
  { rewrite append_nil_l.
    assert (drop_spaces b = EmptyString) as ->; [|done].
    clear -Hb. unfold all_space in Hb. induction b as [|c b IH]; [done|].
    simpl in *. apply andb_prop in Hb as [-> Hb]. by apply IH. }
  rewrite append_cons.
  rewrite (drop_spaces_fixed (String ch (r +:+ b))), (drop_spaces_fixed (String ch r))
    by done.
  set (F := λ v : Z,
         let v := if bool_decide (ch = "-"%char) then (- v)%Z else v in
         if ((-2147483648 <=? v) && (v <=? 2147483647))%Z then Some v else None).
  destruct (bool_decide (ch = "-"%char) || bool_decide (ch = "+"%char)).
  - exact (stoi_digits_append F r b Hb).
  - rewrite <- append_cons. exact (stoi_digits_append F (String ch r) b Hb).
Qed.

Lemma stoi_trim s : stoi (trim s) = stoi s.
Proof.
  destruct (drop_spaces_split s) as (a & Ha & Hsa).
  pose proof (drop_spaces_head s) as Hh.
  destruct (drop_trailing_split (drop_spaces s)) as (b & Hb & Hsb).
  assert (trimmed (drop_trailing (drop_spaces s))) as Ht.
  { destruct (drop_spaces s) as [|ch r]; [done|]. by apply drop_trailing_trimmed. }
  assert (trim s = drop_trailing (drop_spaces s)) as Htrim.
  { rewrite Ha at 1. rewrite Hb at 1. by apply trim_spec. }
  assert (stoi s = stoi (drop_spaces s)) as Hs1.
  { unfold stoi. f_equal. by rewrite (drop_spaces_fixed (drop_spaces s)). }
  rewrite <- Htrim in Hb, Ht.
  rewrite Hs1, Hb. symmetry. apply stoi_head_append; [|done].
  destruct (trim s) as [|ch r]; [done|]. by destruct Ht.
Qed.

Lemma strtol_digits_uint d tail a :
  (tail = EmptyString ∨ ∃ ch r, tail = String ch r ∧ digit_value ch = None) →
  strtol_digits (NilEmpty.string_of_uint d +:+ tail) (Z.of_nat a)
    = Z.of_nat (Nat.of_uint_acc d a).
Proof.
  intros Htail. revert a.
  induction d as [|d IH|d IH|d IH|d IH|d IH|d IH|d IH|d IH|d IH|d IH]; intros a;
    simpl NilEmpty.string_of_uint; simpl Nat.of_uint_acc;
    rewrite ?append_cons, ?append_nil_l.
  1: { destruct Htail as [->|(ch & r & -> & Hch)]; [done|]. simpl. by rewrite Hch. }
  all: rewrite <- IH; simpl strtol_digits; f_equal;
    rewrite Nat.tail_mul_spec; lia.
Qed.

Lemma show_head n :
  ∃ ch r, show n = String ch r ∧ is_Some (digit_value ch)
          ∧ isspace ch = false
          ∧ bool_decide (ch = "-"%char) = false
          ∧ bool_decide (ch = "+"%char) = false.
Proof.
  unfold show. destruct (Nat.to_uint n) as [|d|d|d|d|d|d|d|d|d|d] eqn:E;
    [|by (eexists _, _; repeat split; try reflexivity; by eexists)..].
  pose proof (DecimalNat.Unsigned.of_to n) as Hn. rewrite E in Hn.
  simpl in Hn. subst n. by vm_compute in E.
Qed.

End main.

(** X17. [main] never ends through an exception: whatever the files are
    and whatever is typed, no pass of the menu loop lets [printCourseList]
    throw, and [main] returns 0. *)
Theorem main_returns files cin : (main files cin).2 = Returned 0.
Proof.
  apply (main_loop_returns (length cin)); [done|apply keys_present_initial].
Qed.

(** X18. The choice read from a line is the number typed: white space
    before it is skipped and what follows its digits is ignored, so a line
    holding the decimal digits of [n], at most the greatest [int], reads as
    the choice [n]. *)
Theorem read_choice_number a n tail :
  all_space a = true →
  (Z.of_nat n ≤ 2147483647)%Z →
  (tail = EmptyString ∨ ∃ ch r, tail = String ch r ∧ digit_value ch = None) →
  read_choice (a +:+ show n +:+ tail) = Z.of_nat n.
Proof.
  intros Ha Hn Htail. unfold read_choice.
  rewrite trim_append_space_l, stoi_trim by done.
  destruct (show_head n) as (ch & r & Hshow & [v Hv] & Hsp & Hm & Hp).
  pose proof (strtol_digits_uint (Nat.to_uint n) tail 0 Htail) as Hd.
  fold (show n) in Hd. change (Nat.of_uint_acc (Nat.to_uint n) 0)
    with (Nat.of_uint (Nat.to_uint n)) in Hd.
  rewrite DecimalNat.Unsigned.of_to in Hd. change (Z.of_nat 0) with 0%Z in Hd.
  unfold stoi. rewrite Hshow in Hd |- *. rewrite append_cons in Hd |- *.
  simpl drop_spaces. rewrite Hsp, Hm, Hp. simpl orb. cbv iota.
  rewrite Hv, Hd. cbv zeta.
  destruct (Z.leb_spec (-2147483648) (Z.of_nat n)); [|lia].
  destruct (Z.leb_spec (Z.of_nat n) 2147483647); [done|lia].
Qed.

Lemma read_choice_number_witness :
  read_choice (" " +:+ show 3 +:+ ". course") = Z.of_nat 3.
Proof.
  apply (read_choice_number " " 3 ". course"); [reflexivity|lia|].
  right. by exists "."%char, " course".
Defined.
